(* Verification of the result-aggregation controller of App.js
   (src/src/App.js): deduplicating merges, pagination, highlight timer,
   bootstrap effect and view projection. *)

From Stdlib Require Import List String Ascii ZArith Bool Lia.
Import ListNotations.
Open Scope Z_scope.

(* ================================================================ *)
(** * JavaScript values used by the controller                       *)
(* ================================================================ *)

(** A string-valued field of a deal: [None] is [undefined]. *)
Definition jsstr := option string.

(** JavaScript truthiness of a string field: [undefined] and [""] are
    falsy. *)
Definition truthy (v : jsstr) : bool :=
  match v with
  | Some s => negb (String.eqb s ""%string)
  | None => false
  end.

(** [a || b] *)
Definition js_or (a b : jsstr) : jsstr := if truthy a then a else b.

Definition jsstr_eqb (a b : jsstr) : bool :=
  match a, b with
  | Some x, Some y => String.eqb x y
  | None, None => true
  | _, _ => false
  end.

(** [Set.prototype.has] over the keys collected in [new Set(...)]. *)
Definition set_has (keys : list jsstr) (k : jsstr) : bool :=
  existsb (jsstr_eqb k) keys.

(* ================================================================ *)
(** * Deal records                                                   *)
(* ================================================================ *)

Record Deal := mkDeal {
  asin : jsstr;
  url : jsstr;
  title : jsstr;
  discount : Z;
  code : jsstr;
  couponCode : jsstr;
  promoCode : jsstr;
  coupon : jsstr;
  id : nat;            (* locally assigned: Date.now() + Math.random() *)
  rewritten : jsstr
}.

(** The fields a [dedupeKey] may name ([p[dedupeKey]]). *)
Inductive field := F_asin | F_url | F_title.

Definition get_field (f : field) (d : Deal) : jsstr :=
  match f with
  | F_asin => asin d
  | F_url => url d
  | F_title => title d
  end.

(** [const [dedupeKey] = useState('asin')] *)
Definition dedupeKey : field := F_asin.

(** [{ ...d, id: ... }] *)
Definition with_id (d : Deal) (n : nat) : Deal :=
  mkDeal (asin d) (url d) (title d) (discount d) (code d) (couponCode d)
         (promoCode d) (coupon d) n (rewritten d).

(** [{ ...d, rewritten: text }] *)
Definition with_rewritten (d : Deal) (t : jsstr) : Deal :=
  mkDeal (asin d) (url d) (title d) (discount d) (code d) (couponCode d)
         (promoCode d) (coupon d) (id d) t.

(** [data.deals.map((d) => ({ ...d, id: Date.now() + Math.random() }))]:
    every arriving deal gets a fresh local id, drawn here from a counter. *)
Fixpoint assign_ids (n : nat) (ds : list Deal) : list Deal :=
  match ds with
  | [] => []
  | d :: t => with_id d n :: assign_ids (S n) t
  end.

(** [p[dedupeKey] || p.asin || p.url || p.title] *)
Definition deal_key (k : field) (p : Deal) : jsstr :=
  js_or (js_or (js_or (get_field k p) (asin p)) (url p)) (title p).

(** The merge body shared by both [setDeals] updaters:
<<
    const existingKeys = new Set(prev.map((p) => p[dedupeKey] || ...));
    const uniqueNew = newDeals.filter((n) => {
      const key = n[dedupeKey] || n.asin || n.url || n.title;
      return key && !existingKeys.has(key);
    });
>> *)
Definition existingKeys (k : field) (prev : list Deal) : list jsstr :=
  map (deal_key k) prev.

Definition uniqueNew (k : field) (prev newDeals : list Deal) : list Deal :=
  let keys := existingKeys k prev in
  filter (fun n => let key := deal_key k n in
                   truthy key && negb (set_has keys key)) newDeals.

(** The deduplication contract as the spec words it: the key is the first
    non-empty value among the configured field, asin, url and title; a
    candidate survives iff it has a key and that key is not the key of an
    existing deal. *)
Fixpoint first_nonempty (vs : list jsstr) : option string :=
  match vs with
  | [] => None
  | v :: t => if truthy v then v else first_nonempty t
  end.

Definition spec_key (k : field) (d : Deal) : option string :=
  first_nonempty [get_field k d; asin d; url d; title d].

Definition spec_dedupe (k : field) (existing candidates : list Deal)
  : list Deal :=
  filter (fun c => match spec_key k c with
                   | Some key =>
                       negb (existsb (fun e => match spec_key k e with
                                               | Some k' => String.eqb key k'
                                               | None => false
                                               end) existing)
                   | None => false
                   end) candidates.

(** Small deal constructors for concrete runs. *)
Definition deal_asin (a : string) : Deal :=
  mkDeal (Some a) None None 0 None None None None 0 None.

Definition deal_asin_disc (a : string) (disc : Z) : Deal :=
  mkDeal (Some a) None None disc None None None None 0 None.

(* ================================================================ *)
(** * Highlight tracker: [lastAddedIds] and [lastAddedTimerRef]      *)
(* ================================================================ *)

(** Pending timers are [(handle, deadline)] pairs; [timerRef] is
    [lastAddedTimerRef.current]; [clears] counts the runs of the
    [() => setLastAddedIds([])] callback. *)
Record Highlight := mkHL {
  lastAddedIds : list nat;
  timerRef : option nat;
  pending : list (nat * Z);
  next_handle : nat;
  now : Z;
  clears : nat
}.

Definition dwell : Z := 10000.

(** [clearTimeout(h)] *)
Definition clear_timeout (h : nat) (ps : list (nat * Z)) : list (nat * Z) :=
  filter (fun p => negb (Nat.eqb (fst p) h)) ps.

(** The block run after each merge:
<<
    if (addedIds.length > 0) {
      setLastAddedIds(addedIds);
      if (lastAddedTimerRef.current) clearTimeout(lastAddedTimerRef.current);
      lastAddedTimerRef.current = setTimeout(() => setLastAddedIds([]), 10000);
    }
>> *)
Definition mark (addedIds : list nat) (h : Highlight) : Highlight :=
  match addedIds with
  | [] => h
  | _ :: _ =>
      let ps := match timerRef h with
                | Some t => clear_timeout t (pending h)
                | None => pending h
                end in
      mkHL addedIds (Some (next_handle h))
           ((next_handle h, now h + dwell) :: ps)
           (S (next_handle h)) (now h) (clears h)
  end.

(** Time passes by [dt]: every timer whose deadline is reached fires and
    clears the highlight set. *)
Definition advance (dt : Z) (h : Highlight) : Highlight :=
  let t := now h + dt in
  let fired := filter (fun p => snd p <=? t) (pending h) in
  let rest := filter (fun p => negb (snd p <=? t)) (pending h) in
  mkHL (match fired with [] => lastAddedIds h | _ => [] end)
       (timerRef h) rest (next_handle h) t (clears h + List.length fired)%nat.

Definition isHighlighted (h : Highlight) (x : nat) : bool :=
  existsb (Nat.eqb x) (lastAddedIds h).

Definition hl_init : Highlight := mkHL [] None [] 1 0 0.

(* ================================================================ *)
(** * Controller state                                               *)
(* ================================================================ *)

Record Session := mkSess {
  serverPage : Z;
  noMorePages : bool;
  isLoadingMore : bool;
  loading : bool;
  lastKeyword : string;
  error : string
}.

Record Filters := mkFilt {
  minDiscount : Z;
  showOnlyWithCodes : bool;
  maxResults : Z;
  debugPromotions : bool
}.

Record State := mkState {
  deals : list Deal;
  sess : Session;
  hl : Highlight;
  filt : Filters;
  next_id : nat
}.

Definition set_deals (ds : list Deal) (s : State) : State :=
  mkState ds (sess s) (hl s) (filt s) (next_id s).
Definition set_sess (x : Session) (s : State) : State :=
  mkState (deals s) x (hl s) (filt s) (next_id s).
Definition set_hl (x : Highlight) (s : State) : State :=
  mkState (deals s) (sess s) x (filt s) (next_id s).
Definition set_filt (x : Filters) (s : State) : State :=
  mkState (deals s) (sess s) (hl s) x (next_id s).
Definition set_next_id (n : nat) (s : State) : State :=
  mkState (deals s) (sess s) (hl s) (filt s) n.

Definition setServerPage (p : Z) (s : State) : State :=
  let x := sess s in
  set_sess (mkSess p (noMorePages x) (isLoadingMore x) (loading x)
                   (lastKeyword x) (error x)) s.
Definition setNoMorePages (b : bool) (s : State) : State :=
  let x := sess s in
  set_sess (mkSess (serverPage x) b (isLoadingMore x) (loading x)
                   (lastKeyword x) (error x)) s.
Definition setIsLoadingMore (b : bool) (s : State) : State :=
  let x := sess s in
  set_sess (mkSess (serverPage x) (noMorePages x) b (loading x)
                   (lastKeyword x) (error x)) s.
Definition setLoading (b : bool) (s : State) : State :=
  let x := sess s in
  set_sess (mkSess (serverPage x) (noMorePages x) (isLoadingMore x) b
                   (lastKeyword x) (error x)) s.
Definition setLastKeyword (k : string) (s : State) : State :=
  let x := sess s in
  set_sess (mkSess (serverPage x) (noMorePages x) (isLoadingMore x)
                   (loading x) k (error x)) s.
Definition setError (e : string) (s : State) : State :=
  let x := sess s in
  set_sess (mkSess (serverPage x) (noMorePages x) (isLoadingMore x)
                   (loading x) (lastKeyword x) e) s.

Definition setMinDiscount (z : Z) (s : State) : State :=
  let f := filt s in
  set_filt (mkFilt z (showOnlyWithCodes f) (maxResults f) (debugPromotions f)) s.
Definition setShowOnlyWithCodes (b : bool) (s : State) : State :=
  let f := filt s in
  set_filt (mkFilt (minDiscount f) b (maxResults f) (debugPromotions f)) s.
Definition setMaxResults (z : Z) (s : State) : State :=
  let f := filt s in
  set_filt (mkFilt (minDiscount f) (showOnlyWithCodes f) z (debugPromotions f)) s.
Definition setDebugPromotions (b : bool) (s : State) : State :=
  let f := filt s in
  set_filt (mkFilt (minDiscount f) (showOnlyWithCodes f) (maxResults f) b) s.

(** Initial values of the [useState] hooks. *)
Definition init_state : State :=
  mkState [] (mkSess 1 false false false ""%string ""%string) hl_init
          (mkFilt 20 false 1000 false) 0.

(* ================================================================ *)
(** * Search endpoint                                                *)
(* ================================================================ *)

Record Request := mkReq {
  req_keyword : string;
  req_minDiscount : Z;
  req_page : Z;
  req_pageSize : Z;
  req_debugPromotions : bool
}.

(** Parsed body of a response of [/api/search]. *)
Record Body := mkBody {
  success : bool;
  body_deals : list Deal;
  body_error : jsstr;
  body_message : jsstr
}.

(** Outcome of [await fetch(...)] followed by [await response.json()]:
    either it throws (network failure, unparsable body) or it yields the
    HTTP [ok] flag with the parsed body. *)
Inductive Response :=
  | Throws (msg : string)
  | Http (ok : bool) (b : Body).

Definition serverPageSize : Z := 30.

(** [String.prototype.trim] on the UTF-8 bytes of a string. It removes the
    leading and trailing WhiteSpace and LineTerminator code points:
    U+0009..U+000D, U+0020, U+00A0, U+1680, U+2000..U+200A, U+2028, U+2029,
    U+202F, U+205F, U+3000 and U+FEFF. A one-byte code point, and the two-
    and three-byte encodings, read front to back. *)
Definition ws1 (b : nat) : bool := (Nat.eqb b 32 || (Nat.leb 9 b && Nat.leb b 13))%bool.

(** U+00A0 is [C2 A0]. *)
Definition ws2 (b1 b2 : nat) : bool := (Nat.eqb b1 194 && Nat.eqb b2 160)%bool.

(** U+1680 [E1 9A 80]; U+2000..U+200A [E2 80 80..8A], U+2028 [E2 80 A8],
    U+2029 [E2 80 A9], U+202F [E2 80 AF]; U+205F [E2 81 9F];
    U+3000 [E3 80 80]; U+FEFF [EF BB BF]. *)
Definition ws3 (b1 b2 b3 : nat) : bool :=
  (Nat.eqb b1 225 && Nat.eqb b2 154 && Nat.eqb b3 128
   || Nat.eqb b1 226 && Nat.eqb b2 128
      && (Nat.leb 128 b3 && Nat.leb b3 138
          || Nat.eqb b3 168 || Nat.eqb b3 169 || Nat.eqb b3 175)
   || Nat.eqb b1 226 && Nat.eqb b2 129 && Nat.eqb b3 159
   || Nat.eqb b1 227 && Nat.eqb b2 128 && Nat.eqb b3 128
   || Nat.eqb b1 239 && Nat.eqb b2 187 && Nat.eqb b3 191)%bool.

(** Drops the white-space code points at the front of [l]; [f2] and [f3]
    recognise the two- and three-byte ones in the order they are read. *)
Fixpoint drop_ws (f2 : nat -> nat -> bool) (f3 : nat -> nat -> nat -> bool)
    (l : list nat) : list nat :=
  match l with
  | [] => []
  | a :: t =>
      if ws1 a then drop_ws f2 f3 t else
      match t with
      | b :: t2 =>
          if f2 a b then drop_ws f2 f3 t2 else
          match t2 with
          | c :: t3 => if f3 a b c then drop_ws f2 f3 t3 else l
          | [] => l
          end
      | [] => l
      end
  end.

Definition trim (s : string) : string :=
  let bs := map nat_of_ascii (list_ascii_of_string s) in
  let front := drop_ws ws2 ws3 bs in
  let back := rev (drop_ws (fun b a => ws2 a b) (fun c b a => ws3 a b c)
                           (rev front)) in
  string_of_list_ascii (map ascii_of_nat back).

(** [`${a || b}`] where [b] is a string literal. *)
Definition js_or_default (a : jsstr) (d : string) : string :=
  match js_or a (Some d) with Some x => x | None => d end.

(* ================================================================ *)
(** * [searchProductsWithKeyword]: the fresh-search path             *)
(* ================================================================ *)

(** Up to the [await fetch(...)]: yields the request it issues, if any. *)
Definition search_begin (keyword : string) (s : State)
  : State * option Request :=
  let s0 := setError ""%string (setLoading true s) in
  if String.eqb (trim keyword) ""%string then
    (setLoading false (setError "❌ Keyword cannot be empty"%string s0), None)
  else
    (s0, Some (mkReq (trim keyword) (minDiscount (filt s)) 1 30
                     (debugPromotions (filt s)))).

(** From the settled [fetch] up to the final [setLoading(false)]. *)
Definition search_complete (keyword : string) (r : Response) (s : State)
  : State :=
  match r with
  | Throws msg =>
      setLoading false
        (setError ("❌ Cannot connect to server: " ++ msg)%string s)
  | Http ok b =>
      if negb ok then
        setLoading false
          (setError ("❌ " ++ js_or_default (js_or (body_error b) (body_message b))
                                 "Unknown error from server")%string s)
      else if success b then
        let s1 := setNoMorePages false
                    (setServerPage 1 (setLastKeyword keyword s)) in
        let newDeals := assign_ids (next_id s1) (body_deals b) in
        let u := uniqueNew dedupeKey (deals s1) newDeals in
        let s2 := set_hl (mark (map id u) (hl s1)) s1 in
        let s3 := set_deals (u ++ deals s1) s2 in
        setLoading false
          (set_next_id (next_id s1 + List.length (body_deals b))%nat s3)
      else
        setLoading false
          (setError ("❌ " ++ js_or_default (body_error b)
                                 "Failed to fetch deals")%string s)
  end.

(** [searchProducts]: the manual search button. *)
Definition searchProducts (searchQuery : string) (s : State)
  : State * option Request :=
  if String.eqb (trim searchQuery) ""%string then (s, None)
  else search_begin searchQuery
         (setLastKeyword searchQuery
            (setNoMorePages false (setServerPage 1 s))).

(* ================================================================ *)
(** * [loadMoreFromServer]: the pagination path                     *)
(* ================================================================ *)

(** A call of the [loadMoreFromServer] function created at the render
    whose state was [cap], up to its [await fetch(...)]. The guard, the
    page and the request body read the values captured by that render (the
    [useCallback] closure); [setIsLoadingMore(true)] acts on the live state
    [s]. *)
Definition loadMore_call (cap s : State) : State * option Request :=
  if isLoadingMore (sess cap) || noMorePages (sess cap) then (s, None)
  else (setIsLoadingMore true s,
        Some (mkReq (lastKeyword (sess cap)) (minDiscount (filt cap))
                    (serverPage (sess cap) + 1) serverPageSize
                    (debugPromotions (filt cap)))).

(** A call of the function of the latest render, with no state update
    since that render: captured and live state coincide. *)
Definition loadMore_begin (s : State) : State * option Request :=
  loadMore_call s s.

(** [req] is the request issued by [loadMore_begin]; its page is the
    captured [nextPage]. The HTTP status is not consulted on this path. *)
Definition loadMore_complete (req : Request) (r : Response) (s : State)
  : State :=
  match r with
  | Throws _ => setIsLoadingMore false s     (* console.error only *)
  | Http _ b =>
      if success b then
        let newDeals := assign_ids (next_id s) (body_deals b) in
        let u := uniqueNew dedupeKey (deals s) newDeals in
        let s1 := if Nat.eqb (List.length u) 0 then setNoMorePages true s else s in
        let s2 := set_hl (mark (map id u) (hl s1)) s1 in
        let s3 := set_deals (deals s1 ++ u) s2 in
        setIsLoadingMore false
          (setServerPage (req_page req)
             (set_next_id (next_id s + List.length (body_deals b))%nat s3))
      else setIsLoadingMore false s
  end.

(** A whole pagination call whose fetch settles with [r] before any other
    event; [None] when the guard makes the call a no-op. *)
Definition loadMoreFromServer (r : Response) (s : State) : option State :=
  match loadMore_begin s with
  | (s', Some req) => Some (loadMore_complete req r s')
  | (_, None) => None
  end.

(** The per-deal rewrite patch of the rewrite button:
    [prev.map((d) => (d.id === deal.id ? { ...d, rewritten } : d))]. *)
Definition rewrite_done (dealId : nat) (ok : bool) (text : jsstr) (s : State)
  : State :=
  if ok then
    set_deals (map (fun d => if Nat.eqb (id d) dealId
                             then with_rewritten d text else d) (deals s)) s
  else s.

(* ================================================================ *)
(** * View projection                                                *)
(* ================================================================ *)

(** [deal.code || deal.couponCode || deal.promoCode || deal.coupon || ''] *)
Definition getDealCode (d : Deal) : jsstr :=
  js_or (js_or (js_or (js_or (code d) (couponCode d)) (promoCode d))
               (coupon d)) (Some ""%string).

(** [deals.filter((d) => { if (d.discount < minDiscount) return false;
      if (showOnlyWithCodes && !getDealCode(d)) return false; return true; })] *)
Definition filtered_of (ds : list Deal) (minD : Z) (onlyCodes : bool)
  : list Deal :=
  filter (fun d => if discount d <? minD then false
                   else if onlyCodes && negb (truthy (getDealCode d))
                        then false else true) ds.

(** End index of [arr.slice(0, n)] on an array of length [len]. *)
Definition slice_end (n : Z) (len : nat) : nat :=
  if n <? 0 then Z.to_nat (Z.max 0 (Z.of_nat len + n))
  else Z.to_nat (Z.min n (Z.of_nat len)).

Definition slice0 {A} (l : list A) (n : Z) : list A :=
  firstn (slice_end n (List.length l)) l.

Definition filtered (s : State) : list Deal :=
  filtered_of (deals s) (minDiscount (filt s)) (showOnlyWithCodes (filt s)).

Definition displayedDeals (s : State) : list Deal :=
  slice0 (filtered s) (maxResults (filt s)).

(* ================================================================ *)
(** * Events of the controller                                       *)
(* ================================================================ *)

Inductive Event :=
  | EvSetMinDiscount (z : Z)
  | EvSetMaxResults (z : Z)
  | EvSetShowOnlyWithCodes (b : bool)
  | EvSetDebugPromotions (b : bool)
  | EvSearchProducts (q : string)
  | EvSearchBegin (keyword : string)
  | EvSearchComplete (keyword : string) (r : Response)
  | EvLoadMoreCall (cap : State)
  | EvLoadMoreComplete (req : Request) (r : Response)
  | EvRewrite (dealId : nat) (ok : bool) (text : jsstr)
  | EvAdvance (dt : Z).

Definition step (e : Event) (s : State) : State :=
  match e with
  | EvSetMinDiscount z => setMinDiscount z s
  | EvSetMaxResults z => setMaxResults z s
  | EvSetShowOnlyWithCodes b => setShowOnlyWithCodes b s
  | EvSetDebugPromotions b => setDebugPromotions b s
  | EvSearchProducts q => fst (searchProducts q s)
  | EvSearchBegin k => fst (search_begin k s)
  | EvSearchComplete k r => search_complete k r s
  | EvLoadMoreCall cap => fst (loadMore_call cap s)
  | EvLoadMoreComplete req r => loadMore_complete req r s
  | EvRewrite i ok t => rewrite_done i ok t s
  | EvAdvance dt => set_hl (advance dt (hl s)) s
  end.

(* ================================================================ *)
(** * Bootstrap effect: [useEffect(() => { autoLoadDeals(); },
      [searchProductsWithKeyword])]                                   *)
(* ================================================================ *)

Definition defaultKeywords : list string :=
  ["electronics"; "home kitchen"; "wireless"]%string.

(** The production value of [API_BASE]; it is the same string on every
    render. *)
Definition API_BASE : string := "https://amazon-deals-backend.onrender.com".

(** The dependency array of the [useCallback] that defines
    [searchProductsWithKeyword]: [[minDiscount, API_BASE, dedupeKey,
    debugPromotions]]. *)
Record CbDeps := mkDeps {
  d_minDiscount : Z;
  d_api : string;
  d_dedupeKey : field;
  d_debugPromotions : bool
}.

Definition search_cb_deps (s : State) : CbDeps :=
  mkDeps (minDiscount (filt s)) API_BASE dedupeKey (debugPromotions (filt s)).

Definition field_eqb (a b : field) : bool :=
  match a, b with
  | F_asin, F_asin | F_url, F_url | F_title, F_title => true
  | _, _ => false
  end.

(** [Object.is] on every entry of the dependency arrays. *)
Definition deps_eqb (a b : CbDeps) : bool :=
  (Z.eqb (d_minDiscount a) (d_minDiscount b)
   && String.eqb (d_api a) (d_api b)
   && field_eqb (d_dedupeKey a) (d_dedupeKey b)
   && Bool.eqb (d_debugPromotions a) (d_debugPromotions b))%bool.

(** Hook bookkeeping across renders: the memoised dependencies and the
    identity (a version number) of the callback [useCallback] returns,
    the callback identity the effect last ran with, and the number of runs
    of [autoLoadDeals]. *)
Record Hooks := mkHooks {
  memo_deps : CbDeps;
  cb_version : nat;
  effect_dep : nat;
  boot_runs : nat
}.

(** First render: the callback is created and the effect runs. *)
Definition mount (s : State) : Hooks := mkHooks (search_cb_deps s) 0 0 1.

(** A later render: [useCallback] keeps the old function iff its
    dependencies are unchanged; the effect re-runs iff its dependency
    (the callback) changed identity. *)
Definition rerender (h : Hooks) (s : State) : Hooks :=
  let same := deps_eqb (search_cb_deps s) (memo_deps h) in
  let v := if same then cb_version h else S (cb_version h) in
  let md := if same then memo_deps h else search_cb_deps s in
  let runs := if Nat.eqb v (effect_dep h) then boot_runs h
              else S (boot_runs h) in
  mkHooks md v v runs.

Definition run_renders (first : State) (rest : list State) : Hooks :=
  fold_left rerender rest (mount first).

(* ================================================================ *)
(** * [copy]: the text cleaner applied before the clipboard write    *)
(* ================================================================ *)

(** Text as the JavaScript string it is: a list of UTF-16 code units. *)
Definition text := list Z.

Definition CR : Z := 13.
Definition LF : Z := 10.

(** [.replace(/\r\n/g, '\n')] *)
Fixpoint repl_crlf (l : text) : text :=
  match l with
  | [] => []
  | c :: t =>
      if c =? CR then
        match t with
        | d :: t' => if d =? LF then LF :: repl_crlf t' else c :: repl_crlf t
        | [] => [c]
        end
      else c :: repl_crlf t
  end.

(** [.replace(/\r/g, '\n')] *)
Definition repl_cr (l : text) : text :=
  map (fun c => if c =? CR then LF else c) l.

(** [.replace(/\n{3,}/g, '\n\n')]: [n] counts the newlines of the current
    run not yet written; a finished run of three or more is written as
    two. *)
Definition emit_run (n : nat) : text := repeat LF (if Nat.leb 3 n then 2 else n).

Fixpoint collapse_aux (n : nat) (l : text) : text :=
  match l with
  | [] => emit_run n
  | c :: t =>
      if c =? LF then collapse_aux (S n) t
      else emit_run n ++ c :: collapse_aux 0 t
  end.

Definition collapse_nl (l : text) : text := collapse_aux 0 l.

(** [/[\u200B-\u200D\uFEFF]/]: the zero-width characters. *)
Definition is_zero_width (c : Z) : bool :=
  ((0x200B <=? c) && (c <=? 0x200D)) || (c =? 0xFEFF).

(** [.replace(/[\u200B-\u200D\uFEFF]/g, '')] *)
Definition strip_zero_width (l : text) : text :=
  filter (fun c => negb (is_zero_width c)) l.

(** The white space and line terminators [String.prototype.trim]
    removes. *)
Definition is_js_ws (c : Z) : bool :=
  (c =? 9) || (c =? 10) || (c =? 11) || (c =? 12) || (c =? 13) || (c =? 32)
  || (c =? 0xA0) || (c =? 0x1680) || ((0x2000 <=? c) && (c <=? 0x200A))
  || (c =? 0x2028) || (c =? 0x2029) || (c =? 0x202F) || (c =? 0x205F)
  || (c =? 0x3000) || (c =? 0xFEFF).

Fixpoint drop_while (f : Z -> bool) (l : text) : text :=
  match l with
  | c :: t => if f c then drop_while f t else l
  | [] => []
  end.

(** [.trim()] *)
Definition js_trim (l : text) : text :=
  rev (drop_while is_js_ws (rev (drop_while is_js_ws l))).

(** [const cleanText = text.replace(...)...trim();] in [copy]. *)
Definition cleanText (l : text) : text :=
  js_trim (strip_zero_width (collapse_nl (repl_cr (repl_crlf l)))).

(** No three consecutive newlines: [k] is the length of the newline run
    just read. *)
Fixpoint no_nl3_from (k : nat) (l : text) : bool :=
  match l with
  | [] => true
  | c :: t =>
      if c =? LF then (if Nat.leb 2 k then false else no_nl3_from (S k) t)
      else no_nl3_from 0 t
  end.

Definition no_nl3 (l : text) : bool := no_nl3_from 0 l.

(* ================================================================ *)
(** * Infinite-scroll sentinel                                       *)
(* ================================================================ *)

(** The [IntersectionObserver] callback:
    [if (e.isIntersecting && filtered.length > displayedDeals.length)
       loadMoreFromServer();] *)
Definition sentinel_triggers (isIntersecting : bool) (s : State) : bool :=
  isIntersecting
  && Nat.ltb (List.length (displayedDeals s)) (List.length (filtered s)).

(* ================================================================ *)
(** * External-URL section: metadata fetch and AI rewrite            *)
(* ================================================================ *)

(** [data] of [/api/fetch-metadata], or the placeholder objects the
    handler builds; an absent [success] is [false]. *)
Record Meta := mkMeta {
  meta_success : bool;
  meta_title : jsstr;
  meta_description : jsstr;
  meta_image : jsstr;
  meta_error : jsstr
}.

(** [data] of [/api/rewrite]. *)
Record RewriteBody := mkRw {
  rw_success : bool;
  rw_rewritten : jsstr;
  rw_retry : bool;
  rw_error : jsstr
}.


Inductive RewriteResponse :=
  | RwThrows (msg : string)
  | RwBody (b : RewriteBody).

Record External := mkExt {
  externalUrl : string;
  externalMeta : option Meta;      (* [null] is [None] *)
  fetchingMeta : bool;
  rewritingExternal : bool;
  externalRewritten : jsstr;
  alerts : list string             (* the [alert(...)] calls, latest first *)
}.

Definition setRewritingExternal (b : bool) (e : External) : External :=
  mkExt (externalUrl e) (externalMeta e) (fetchingMeta e) b
        (externalRewritten e) (alerts e).
Definition setExternalRewritten (t : jsstr) (e : External) : External :=
  mkExt (externalUrl e) (externalMeta e) (fetchingMeta e)
        (rewritingExternal e) t (alerts e).
Definition alert (msg : string) (e : External) : External :=
  mkExt (externalUrl e) (externalMeta e) (fetchingMeta e)
        (rewritingExternal e) (externalRewritten e) (msg :: alerts e).

(** [`${v}`] *)
Definition js_template (v : jsstr) : string :=
  match v with Some x => x | None => "undefined" end.




Definition warming_up_msg : string :=
  "⏳ Model warming up. Try again in a few seconds.".

(** The AI Rewrite button of the external section, up to its [fetch]. The
    [finally] clause also runs on the early [return]. *)
Definition externalRewrite_begin (e : External) : External * option string :=
  let e0 := setExternalRewritten (Some ""%string) (setRewritingExternal true e) in
  if String.eqb (trim (externalUrl e)) ""%string
  then (setRewritingExternal false
          (setRewritingExternal false (alert "Please enter a URL" e0)), None)
  else (e0, Some (trim (externalUrl e))).

Definition externalRewrite_complete (r : RewriteResponse) (e : External)
  : External :=
  setRewritingExternal false
    (match r with
     | RwThrows msg => alert ("Error: " ++ msg)%string e
     | RwBody b =>
         if rw_success b then setExternalRewritten (rw_rewritten b) e
         else if rw_retry b then setExternalRewritten (Some warming_up_msg) e
         else alert ("Rewrite failed: " ++ js_template (rw_error b))%string e
     end).

Definition rewrite_failed (r : RewriteResponse) : bool :=
  match r with
  | RwThrows _ => true
  | RwBody b => negb (rw_success b) && negb (rw_retry b)
  end.

(* ================================================================ *)
(** * Arrays and objects on the JavaScript heap                      *)
(* ================================================================ *)

(** The raw collection as JavaScript holds it: [deals] is a reference to
    an array cell whose elements are references to deal objects. Address
    [a] is the [a]-th cell of the heap; allocation appends a cell. *)
Definition addr := nat.

Inductive Cell :=
  | ObjCell (d : Deal)
  | ArrCell (elems : list addr).

Definition Heap := list Cell.

Definition alloc (c : Cell) (h : Heap) : Heap * addr := (h ++ [c], List.length h).

(** An in-place write of a cell: [arr.sort()], [arr.push(x)],
    [arr[i] = x] or [obj.f = v] on the object or array at [a]. *)
Fixpoint write (a : addr) (c : Cell) (h : Heap) {struct h} : Heap :=
  match h, a with
  | [], _ => []
  | _ :: t, O => c :: t
  | x :: t, S a' => x :: write a' c t
  end.

Definition arr_elems (h : Heap) (a : addr) : option (list addr) :=
  match nth_error h a with
  | Some (ArrCell xs) => Some xs
  | _ => None
  end.

(** The deals an array's elements refer to. *)
Fixpoint deref_elems (h : Heap) (xs : list addr) : option (list Deal) :=
  match xs with
  | [] => Some []
  | x :: t =>
      match nth_error h x, deref_elems h t with
      | Some (ObjCell d), Some ds => Some (d :: ds)
      | _, _ => None
      end
  end.

Definition deref_arr (h : Heap) (a : addr) : option (list Deal) :=
  match arr_elems h a with
  | Some xs => deref_elems h xs
  | None => None
  end.

(** The element references [arr.filter(p)] keeps: [p] reads each element
    object, nothing is written. *)
Fixpoint filter_elems (p : Deal -> bool) (h : Heap) (xs : list addr)
  : option (list addr) :=
  match xs with
  | [] => Some []
  | x :: t =>
      match nth_error h x, filter_elems p h t with
      | Some (ObjCell d), Some ys => Some (if p d then x :: ys else ys)
      | _, _ => None
      end
  end.

(** [ds.map((d) => ({ ...d, id: ... }))]: one new object per deal. *)
Fixpoint alloc_objs (ds : list Deal) (h : Heap) : Heap * list addr :=
  match ds with
  | [] => (h, [])
  | d :: t =>
      let (h1, a) := alloc (ObjCell d) h in
      let (h2, r) := alloc_objs t h1 in
      (h2, a :: r)
  end.

(** The predicate of [deals.filter(...)] in [filtered]. *)
Definition view_pred (minD : Z) (onlyCodes : bool) (d : Deal) : bool :=
  if discount d <? minD then false
  else if onlyCodes && negb (truthy (getDealCode d)) then false else true.

(** A render's [const filtered = deals.filter(...)] and
    [const displayedDeals = filtered.slice(0, maxResults)]; yields the
    heap and the references of the two arrays. *)
Definition render_view (h : Heap) (dref : addr) (f : Filters)
  : option (Heap * addr * addr) :=
  match arr_elems h dref with
  | Some xs =>
      match filter_elems (view_pred (minDiscount f) (showOnlyWithCodes f)) h xs with
      | Some ys =>
          let (h1, fa) := alloc (ArrCell ys) h in
          let (h2, da) := alloc (ArrCell (firstn (slice_end (maxResults f)
                                                    (List.length ys)) ys)) h1 in
          Some (h2, fa, da)
      | None => None
      end
  | None => None
  end.

(** The [setDeals] updater of both merge paths on the heap: the objects of
    [newDeals] and its array, the [uniqueNew] array, and the result
    [[...uniqueNew, ...prev]] ([prepend]) or [[...prev, ...uniqueNew]]. *)
Definition heap_merge (prepend : bool) (n : nat) (batch : list Deal)
    (h : Heap) (dref : addr) : option (Heap * addr) :=
  match arr_elems h dref, deref_arr h dref with
  | Some xs, Some prev =>
      let newDeals := assign_ids n batch in
      let (h1, nas) := alloc_objs newDeals h in
      let (h2, _) := alloc (ArrCell nas) h1 in
      let keys := existingKeys dedupeKey prev in
      match filter_elems (fun d => let key := deal_key dedupeKey d in
                                   truthy key && negb (set_has keys key)) h2 nas with
      | Some uas =>
          let (h3, _) := alloc (ArrCell uas) h2 in
          Some (alloc (ArrCell (if prepend then uas ++ xs else xs ++ uas)) h3)
      | None => None
      end
  | _, _ => None
  end.

(** [prev.map((d) => (d.id === deal.id ? { ...d, rewritten } : d))]: a new
    object for each matching deal, the others shared. *)
Fixpoint patch_elems (dealId : nat) (t : jsstr) (h : Heap) (xs : list addr)
  : option (Heap * list addr) :=
  match xs with
  | [] => Some (h, [])
  | x :: r =>
      match nth_error h x with
      | Some (ObjCell d) =>
          if Nat.eqb (id d) dealId then
            let (h1, a) := alloc (ObjCell (with_rewritten d t)) h in
            match patch_elems dealId t h1 r with
            | Some (h2, ys) => Some (h2, a :: ys)
            | None => None
            end
          else
            match patch_elems dealId t h r with
            | Some (h2, ys) => Some (h2, x :: ys)
            | None => None
            end
      | _ => None
      end
  end.

Definition heap_patch (dealId : nat) (t : jsstr) (h : Heap) (dref : addr)
  : option (Heap * addr) :=
  match arr_elems h dref with
  | Some xs =>
      match patch_elems dealId t h xs with
      | Some (h1, ys) => Some (alloc (ArrCell ys) h1)
      | None => None
      end
  | None => None
  end.

(** The controller with its heap: [deals_ref] is the value of the [deals]
    state variable; [ui] holds the other state. *)
Record HState := mkHS {
  heap : Heap;
  deals_ref : addr;
  ui : State
}.

(** The heap holds the collection [ui] records. *)
Definition hinv (hs : HState) : Prop :=
  deref_arr (heap hs) (deals_ref hs) = Some (deals (ui hs)).

(** An event on the heap: the three [setDeals] calls (App.js 108, 167 and
    843) rebind [deals] to the array their updater returns; no other event
    touches the heap or [deals]. *)
Definition hstep (e : Event) (hs : HState) : option HState :=
  let s := ui hs in
  let s' := step e s in
  let rebind (o : option (Heap * addr)) :=
    match o with
    | Some (h', a) => Some (mkHS h' a s')
    | None => None
    end in
  match e with
  | EvSearchComplete _ (Http true b) =>
      if success b
      then rebind (heap_merge true (next_id s) (body_deals b) (heap hs) (deals_ref hs))
      else Some (mkHS (heap hs) (deals_ref hs) s')
  | EvLoadMoreComplete _ (Http _ b) =>
      if success b
      then rebind (heap_merge false (next_id s) (body_deals b) (heap hs) (deals_ref hs))
      else Some (mkHS (heap hs) (deals_ref hs) s')
  | EvRewrite i true t => rebind (heap_patch i t (heap hs) (deals_ref hs))
  | _ => Some (mkHS (heap hs) (deals_ref hs) s')
  end.

(* ================================================================ *)
(** * Lemmas on keys                                                 *)
(* ================================================================ *)

Lemma truthy_true (v : jsstr) :
  truthy v = true -> exists x, v = Some x /\ x <> ""%string.
Proof.
  destruct v as [x|]; simpl; [|discriminate].
  intros H. exists x. split; [reflexivity|].
  intros ->. discriminate H.
Qed.

Lemma truthy_false (v : jsstr) :
  truthy v = false -> v = None \/ v = Some ""%string.
Proof.
  destruct v as [x|]; simpl; [|auto].
  destruct (String.eqb_spec x ""%string) as [->|]; simpl; [auto|discriminate].
Qed.

Lemma js_or4_cases (a b c e : jsstr) :
  (first_nonempty [a; b; c; e] = None
   /\ (js_or (js_or (js_or a b) c) e = None
       \/ js_or (js_or (js_or a b) c) e = Some ""%string))
  \/ (exists x, first_nonempty [a; b; c; e] = Some x
                /\ js_or (js_or (js_or a b) c) e = Some x
                /\ x <> ""%string).
Proof.
  destruct a as [[|? ?]|], b as [[|? ?]|], c as [[|? ?]|], e as [[|? ?]|];
    simpl;
    first [ left; split; [reflexivity | auto]
          | right; eexists; split; [reflexivity | split; [reflexivity | discriminate]] ].
Qed.

Lemma key_cases (k : field) (d : Deal) :
  (spec_key k d = None
   /\ (deal_key k d = None \/ deal_key k d = Some ""%string))
  \/ (exists x, spec_key k d = Some x /\ deal_key k d = Some x
                /\ x <> ""%string).
Proof. apply js_or4_cases. Qed.

Lemma set_has_spec (k : field) (x : string) (ex : list Deal) :
  x <> ""%string ->
  set_has (existingKeys k ex) (Some x)
  = existsb (fun e => match spec_key k e with
                      | Some k' => String.eqb x k'
                      | None => false
                      end) ex.
Proof.
  intros Hx. unfold set_has, existingKeys.
  induction ex as [|e ex IH]; simpl; [reflexivity|].
  rewrite IH. f_equal.
  destruct (key_cases k e) as [(-> & [-> | ->]) | (y & -> & -> & _)];
    simpl; auto.
  destruct (String.eqb_spec x ""%string); congruence.
Qed.

Lemma deal_key_with_id (k : field) (d : Deal) (n : nat) :
  deal_key k (with_id d n) = deal_key k d.
Proof. destruct k; reflexivity. Qed.

Lemma map_key_assign_ids (k : field) (n : nat) (ds : list Deal) :
  map (deal_key k) (assign_ids n ds) = map (deal_key k) ds.
Proof.
  revert n; induction ds as [|d ds IH]; intros n; simpl; [reflexivity|].
  rewrite deal_key_with_id, IH. reflexivity.
Qed.

Lemma length_assign_ids (n : nat) (ds : list Deal) :
  List.length (assign_ids n ds) = List.length ds.
Proof.
  revert n; induction ds; intros n; simpl; auto.
Qed.

Lemma set_has_In (keys : list jsstr) (x : jsstr) :
  set_has keys x = true <-> In x keys.
Proof.
  unfold set_has. rewrite existsb_exists. split.
  - intros (y & Hy & E). destruct x as [a|], y as [b|]; simpl in E;
      try discriminate; [apply String.eqb_eq in E; subst|]; exact Hy.
  - intros H. exists x. split; [exact H|].
    destruct x as [a|]; simpl; [apply String.eqb_refl | reflexivity].
Qed.

Lemma uniqueNew_pointwise (k : field) (ex : list Deal) (c : Deal) :
  (truthy (deal_key k c) && negb (set_has (existingKeys k ex) (deal_key k c)))%bool
  = match spec_key k c with
    | Some key =>
        negb (existsb (fun e => match spec_key k e with
                                | Some k' => String.eqb key k'
                                | None => false
                                end) ex)
    | None => false
    end.
Proof.
  destruct (key_cases k c) as [(-> & [-> | ->]) | (x & -> & -> & Hx)];
    [reflexivity | reflexivity |].
  rewrite (set_has_spec k x ex Hx). simpl.
  destruct (String.eqb_spec x ""%string); [contradiction | reflexivity].
Qed.

Lemma filter_all_false {A} (f : A -> bool) (l : list A) :
  (forall x, In x l -> f x = false) -> filter f l = [].
Proof.
  induction l as [|a l IH]; intros H; simpl; [reflexivity|].
  rewrite (H a (or_introl eq_refl)). apply IH. intros x Hx. apply H. now right.
Qed.

Lemma uniqueNew_covers (k : field) (prev cands : list Deal) (n : nat) :
  forall x, In x (map (deal_key k) cands) ->
  truthy x = false
  \/ In x (existingKeys k prev)
  \/ In x (map (deal_key k) (uniqueNew k prev (assign_ids n cands))).
Proof.
  intros x Hx. rewrite <- (map_key_assign_ids k n cands) in Hx.
  apply in_map_iff in Hx as (c & <- & Hc).
  destruct (truthy (deal_key k c)) eqn:Ht; [|now left].
  destruct (set_has (existingKeys k prev) (deal_key k c)) eqn:Hs.
  - right; left. now apply set_has_In.
  - right; right. apply in_map. unfold uniqueNew. apply filter_In.
    split; [exact Hc|]. rewrite Ht, Hs. reflexivity.
Qed.

(* ================================================================ *)
(** * Claims                                                         *)
(* ================================================================ *)

(** C6: [dedupe(existing, candidates, key)] (the [uniqueNew] filter of
    both merge paths) returns exactly the candidates whose selected key,
    the first non-empty value among the configured field, asin, url and
    title, exists and is not the key of an existing deal, in candidate
    order; a candidate with all four fields empty is dropped. For existing
    [[{asin:"A1"}]] and candidates [[{asin:"A1"},{asin:"A2"}]] the result
    is [[{asin:"A2"}]]. *)
Theorem dedupe_matches_contract (k : field) (existing candidates : list Deal) :
  uniqueNew k existing candidates = spec_dedupe k existing candidates
  /\ uniqueNew F_asin [deal_asin "A1"] [deal_asin "A1"; deal_asin "A2"]
     = [deal_asin "A2"].
Proof.
  split; [|reflexivity].
  unfold uniqueNew, spec_dedupe.
  induction candidates as [|c cs IH]; simpl; [reflexivity|].
  rewrite uniqueNew_pointwise, IH. reflexivity.
Qed.

(** C2 (counterexample): a page whose two candidates share the asin
    ["A2"], merged by the fresh-search path into an empty collection,
    leaves two deals with that asin. *)
Lemma within_batch_duplicates_kept :
  map asin (deals (search_complete "electronics"
                     (Http true (mkBody true [deal_asin "A2"; deal_asin "A2"]
                                        None None)) init_state))
  = [Some "A2"; Some "A2"]%string.
Proof. reflexivity. Qed.

(** C7: merging the same candidates again, with fresh local ids, against
    the collection the first merge produced (appended or prepended) keeps
    nothing. *)
(** A collection that holds every key of [prev] and of the deals a merge
    of [cands] kept accepts none of [cands] again. *)
Lemma uniqueNew_again (k : field) (prev cands ex : list Deal) (n m : nat) :
  (forall x, In x (existingKeys k prev) -> In x (existingKeys k ex)) ->
  (forall x, In x (map (deal_key k) (uniqueNew k prev (assign_ids n cands))) ->
             In x (existingKeys k ex)) ->
  uniqueNew k ex (assign_ids m cands) = [].
Proof.
  intros H1 H2. unfold uniqueNew at 1. apply filter_all_false.
  intros c Hc.
  assert (Hin : In (deal_key k c) (map (deal_key k) cands)).
  { rewrite <- (map_key_assign_ids k m cands). now apply in_map. }
  destruct (uniqueNew_covers k prev cands n _ Hin) as [Hf | [Hp | Hu]].
  - rewrite Hf. reflexivity.
  - apply H1, set_has_In in Hp. rewrite Hp.
    destruct (truthy _); reflexivity.
  - apply H2, set_has_In in Hu. rewrite Hu.
    destruct (truthy _); reflexivity.
Qed.

Theorem merge_idempotent (k : field) (prev cands : list Deal) (n m : nat) :
  let u := uniqueNew k prev (assign_ids n cands) in
  uniqueNew k (prev ++ u) (assign_ids m cands) = []
  /\ uniqueNew k (u ++ prev) (assign_ids m cands) = [].
Proof.
  intros u.
  assert (Hk : forall ex, (forall x, In x (existingKeys k prev) -> In x (existingKeys k ex))
               -> (forall x, In x (map (deal_key k) u) -> In x (existingKeys k ex))
               -> uniqueNew k ex (assign_ids m cands) = [])
    by (intros ex; apply uniqueNew_again).
  unfold existingKeys in Hk. split; apply Hk; intros x Hx;
    rewrite map_app; apply in_or_app; auto.
Qed.

(** C1 (counterexample): a page fetch whose only deal is already in the
    collection sets [noMorePages] but still advances [serverPage] from 1
    to 2. *)
Lemma exhausting_fetch_advances_page :
  let s0 := set_deals [deal_asin "A1"] init_state in
  exists s', loadMoreFromServer
               (Http true (mkBody true [deal_asin "A1"] None None)) s0 = Some s'
             /\ noMorePages (sess s') = true
             /\ serverPage (sess s0) = 1
             /\ serverPage (sess s') = 2.
Proof.
  intros s0. eexists. split; [reflexivity|]. repeat split; reflexivity.
Qed.

(** C1 (amended): a successful page fetch with no unique result merges
    nothing, leaves the highlight state alone, sets [noMorePages], clears
    [isLoadingMore] and still advances [serverPage] to the requested page
    [serverPage + 1]; every later call of a [loadMoreFromServer] created
    at a render where [noMorePages] holds is a no-op that issues no
    request, whatever the live state. *)
Theorem exhausting_fetch (s s' : State) (ok : bool) (b : Body) :
  success b = true ->
  uniqueNew dedupeKey (deals s) (assign_ids (next_id s) (body_deals b)) = [] ->
  loadMoreFromServer (Http ok b) s = Some s' ->
  noMorePages (sess s') = true
  /\ serverPage (sess s') = serverPage (sess s) + 1
  /\ deals s' = deals s
  /\ hl s' = hl s
  /\ isLoadingMore (sess s') = false
  /\ loadMore_begin s' = (s', None)
  /\ (forall cap t, noMorePages (sess cap) = true -> loadMore_call cap t = (t, None)).
Proof.
  intros Hsucc Hu Hrun.
  assert (Hnm : forall cap t, noMorePages (sess cap) = true ->
                              loadMore_call cap t = (t, None)).
  { intros cap t Ht. unfold loadMore_call. rewrite Ht, orb_true_r. reflexivity. }
  unfold loadMoreFromServer, loadMore_begin, loadMore_call in Hrun.
  destruct (isLoadingMore (sess s) || noMorePages (sess s)) eqn:G;
    [discriminate|].
  injection Hrun as <-. unfold loadMore_complete. rewrite Hsucc.
  cbn [deals setIsLoadingMore set_sess sess next_id]. rewrite Hu.
  cbn. rewrite app_nil_r.
  repeat split; try reflexivity.
  all: first [exact Hnm | unfold loadMore_begin; apply Hnm; reflexivity].
Qed.

Lemma exhausting_fetch_witness :
  let s0 := set_deals [deal_asin "A1"] init_state in
  let b := mkBody true [deal_asin "A1"] None None in
  exists s', noMorePages (sess s') = true
             /\ serverPage (sess s') = serverPage (sess s0) + 1.
Proof.
  intros s0 b.
  exists (loadMore_complete (mkReq ""%string 20 2 serverPageSize false)
            (Http true b) (setIsLoadingMore true s0)).
  destruct (exhausting_fetch s0 _ true b eq_refl eq_refl eq_refl)
    as (H1 & H2 & _).
  split; [exact H1 | exact H2].
Defined.

(** C3 (counterexample): a page carrying the asin ["A2"] twice, fetched by
    [loadMoreFromServer] into the empty collection, leaves two deals with
    the same key. *)
Lemma duplicate_keys_after_page :
  exists s', loadMoreFromServer
               (Http true (mkBody true [deal_asin "A2"; deal_asin "A2"]
                                  None None)) init_state = Some s'
             /\ ~ NoDup (existingKeys dedupeKey (deals s')).
Proof.
  eexists. split; [reflexivity|]. cbn. intros H.
  inversion H as [|x l Hx _]. apply Hx. left. reflexivity.
Qed.

(** Failed fresh-search fetch: it throws, the HTTP status is not ok, or
    the body has [success: false]. *)
Definition search_failed (r : Response) : bool :=
  match r with
  | Throws _ => true
  | Http ok b => (negb ok || negb (success b))%bool
  end.

(** Failed pagination fetch, as [loadMoreFromServer] tests it: it throws
    or the body has [success: false]. *)
Definition page_failed (r : Response) : bool :=
  match r with
  | Throws _ => true
  | Http _ b => negb (success b)
  end.

(** C4 (counterexample): a pagination fetch that throws leaves the
    user-visible error message empty. *)
Lemma page_failure_not_surfaced :
  exists s', loadMoreFromServer (Throws "Failed to fetch"%string) init_state
             = Some s'
             /\ error (sess s') = ""%string.
Proof. eexists. split; reflexivity. Qed.

(** C4 (amended): a failed fresh-search fetch changes only [loading]
    (cleared) and the error message (set to a non-empty text): nothing is
    merged and page, exhaustion, highlight and keyword are untouched. A
    pagination fetch that throws or returns [success: false] changes only
    [isLoadingMore] (cleared): nothing is merged, page and exhaustion are
    untouched, and no user-visible message is set (the error is only
    logged to the console). *)
Lemma search_complete_failed (kw : string) (r : Response) (s : State) :
  search_failed r = true ->
  exists msg, msg <> ""%string
              /\ search_complete kw r s = setLoading false (setError msg s).
Proof.
  intros H1. destruct r as [msg | ok b]; simpl in H1 |- *.
  - eexists. split; [| reflexivity]. cbn. discriminate.
  - destruct ok; simpl in H1 |- *.
    + destruct (success b); [discriminate|].
      eexists. split; [| reflexivity]. cbn. discriminate.
    + eexists. split; [| reflexivity]. cbn. discriminate.
Qed.

Theorem failed_fetch_merges_nothing (kw : string) (req : Request)
    (r1 r2 : Response) (s : State) :
  search_failed r1 = true ->
  page_failed r2 = true ->
  (exists msg, msg <> ""%string
               /\ search_complete kw r1 s = setLoading false (setError msg s))
  /\ loadMore_complete req r2 s = setIsLoadingMore false s.
Proof.
  intros H1 H2. split.
  - apply search_complete_failed, H1.
  - destruct r2 as [msg | ok b]; simpl in H2 |- *; [reflexivity|].
    destruct (success b); [discriminate | reflexivity].
Qed.

Lemma failed_fetch_merges_nothing_witness :
  loadMore_complete (mkReq "electronics" 20 2 serverPageSize false)
    (Http false (mkBody false [] (Some "boom"%string) None)) init_state
  = setIsLoadingMore false init_state.
Proof.
  exact (proj2 (failed_fetch_merges_nothing "electronics"
                  (mkReq "electronics" 20 2 serverPageSize false)
                  (Throws "offline"%string)
                  (Http false (mkBody false [] (Some "boom"%string) None))
                  init_state eq_refl eq_refl)).
Defined.

(** C5 (counterexample): moving the minimum-discount slider from 20 to 30
    re-renders the controller with a new [searchProductsWithKeyword] and
    runs the bootstrap a second time. *)
Lemma bootstrap_rerun_on_min_discount :
  boot_runs (run_renders init_state [setMinDiscount 30 init_state]) = 2%nat.
Proof. reflexivity. Qed.

Lemma filter_length_mono {A} (f g : A -> bool) (l : list A) :
  (forall x, f x = true -> g x = true) ->
  (List.length (filter f l) <= List.length (filter g l))%nat.
Proof.
  intros H. induction l as [|a l IH]; simpl; [lia|].
  destruct (f a) eqn:E.
  - rewrite (H a E). simpl. lia.
  - destruct (g a); simpl; lia.
Qed.

Lemma slice_end_mono (n1 n2 : Z) (len : nat) :
  0 <= n2 -> n2 <= n1 -> (slice_end n2 len <= slice_end n1 len)%nat.
Proof.
  intros H0 H. unfold slice_end.
  destruct (n2 <? 0) eqn:E2, (n1 <? 0) eqn:E1;
    rewrite ?Z.ltb_lt, ?Z.ltb_ge in *; lia.
Qed.

(** C8: [filtered] keeps exactly the deals of the raw collection with
    [discount >= minDiscount] that have a coupon code when codes are
    required, in raw order; [displayedDeals] is its first [maxResults]
    elements as [slice(0, maxResults)] takes them. Raising [minDiscount]
    never lengthens [filtered]; lowering [maxResults] never lengthens
    [displayedDeals]. *)
Theorem view_projection_monotone (s : State) (m1 m2 n1 n2 : Z) :
  m1 <= m2 -> 0 <= n2 <= n1 ->
  (List.length (filtered (setMinDiscount m2 s))
     <= List.length (filtered (setMinDiscount m1 s)))%nat
  /\ (List.length (displayedDeals (setMaxResults n2 s))
        <= List.length (displayedDeals (setMaxResults n1 s)))%nat
  /\ (forall d, In d (filtered s) <->
        In d (deals s) /\ minDiscount (filt s) <= discount d
        /\ (showOnlyWithCodes (filt s) = true -> truthy (getDealCode d) = true))
  /\ displayedDeals s
     = firstn (slice_end (maxResults (filt s)) (List.length (filtered s)))
              (filtered s).
Proof.
  intros Hm [Hn0 Hn]. split; [|split; [|split]].
  - unfold filtered, filtered_of; simpl. apply filter_length_mono.
    intros d. destruct (discount d <? m2) eqn:E2; [discriminate|].
    destruct (discount d <? m1) eqn:E1; [|auto].
    rewrite Z.ltb_lt in E1. rewrite Z.ltb_ge in E2. lia.
  - unfold displayedDeals, slice0, filtered; simpl.
    rewrite !length_firstn.
    pose proof (slice_end_mono n1 n2
                  (List.length (filtered_of (deals s) (minDiscount (filt s))
                                  (showOnlyWithCodes (filt s)))) Hn0 Hn).
    lia.
  - intros d. unfold filtered, filtered_of. rewrite filter_In.
    destruct (discount d <? minDiscount (filt s)) eqn:E.
    + rewrite Z.ltb_lt in E. split; [intros [_ H]; discriminate|lia].
    + rewrite Z.ltb_ge in E.
      destruct (showOnlyWithCodes (filt s)), (truthy (getDealCode d)); simpl;
        intuition discriminate.
  - reflexivity.
Qed.

Lemma view_projection_monotone_witness :
  let s := set_deals [deal_asin_disc "A1" 10; deal_asin_disc "A2" 40] init_state in
  (List.length (filtered (setMinDiscount 30 s))
     <= List.length (filtered (setMinDiscount 5 s)))%nat.
Proof.
  intros s.
  exact (proj1 (view_projection_monotone s 5 30 10 10
                  ltac:(lia) ltac:(lia))).
Defined.

(** At most one expiry timer is pending, and it is the one
    [lastAddedTimerRef] holds. *)
Definition hl_inv (h : Highlight) : Prop :=
  pending h = [] \/ exists hd dl, pending h = [(hd, dl)] /\ timerRef h = Some hd.

Lemma hl_inv_init : hl_inv hl_init.
Proof. left. reflexivity. Qed.

Lemma mark_nonempty_pending (ids : list nat) (h : Highlight) :
  ids <> [] -> hl_inv h ->
  pending (mark ids h) = [(next_handle h, now h + dwell)].
Proof.
  intros Hne Hi. destruct ids as [|x xs]; [contradiction|]. simpl.
  destruct Hi as [-> | (hd & dl & -> & ->)]; simpl.
  - destruct (timerRef h); reflexivity.
  - rewrite Nat.eqb_refl. reflexivity.
Qed.

Lemma mark_inv (ids : list nat) (h : Highlight) :
  hl_inv h -> hl_inv (mark ids h).
Proof.
  intros Hi. destruct ids as [|x xs]; [exact Hi|].
  right. exists (next_handle h), (now h + dwell). split.
  - apply mark_nonempty_pending; [discriminate | exact Hi].
  - reflexivity.
Qed.

Lemma advance_inv (dt : Z) (h : Highlight) :
  hl_inv h -> hl_inv (advance dt h).
Proof.
  intros [Hp | (hd & dl & Hp & Hr)]; unfold advance, hl_inv; simpl;
    rewrite Hp; simpl.
  - left. reflexivity.
  - destruct (dl <=? now h + dt); simpl; [left; reflexivity|].
    right. exists hd, dl. split; [reflexivity | exact Hr].
Qed.

Lemma hl_inv_length (h : Highlight) :
  hl_inv h -> (List.length (pending h) <= 1)%nat.
Proof. intros [-> | (hd & dl & -> & _)]; simpl; lia. Qed.

(** C9: a non-empty [mark] replaces the highlight set by the batch,
    cancels the pending expiry timer and schedules one new timer
    [dwell = 10000] ms ahead; an empty [mark] changes nothing; at most one
    expiry timer is pending in every state reached from the initial one by
    marks and elapsed time; after two non-empty marks less than [dwell]
    apart, waiting [dwell] clears exactly once and no id of either batch
    stays highlighted. *)
Theorem highlight_supersession :
  (forall ids h, ids <> [] -> hl_inv h ->
     lastAddedIds (mark ids h) = ids
     /\ timerRef (mark ids h) = Some (next_handle h)
     /\ pending (mark ids h) = [(next_handle h, now h + dwell)])
  /\ (forall h, mark [] h = h)
  /\ (forall h, hl_inv h ->
        (forall ids, hl_inv (mark ids h))
        /\ (forall dt, hl_inv (advance dt h))
        /\ (List.length (pending h) <= 1)%nat)
  /\ (forall h b1 b2 dt, hl_inv h -> b1 <> [] -> b2 <> [] -> 0 <= dt < dwell ->
        let h' := advance dwell (mark b2 (advance dt (mark b1 h))) in
        clears h' = S (clears h)
        /\ lastAddedIds h' = []
        /\ (forall x, isHighlighted h' x = false)).
Proof.
  split; [|split; [|split]].
  - intros ids h Hne Hi. split; [|split].
    + destruct ids; [contradiction | reflexivity].
    + destruct ids; [contradiction | reflexivity].
    + apply mark_nonempty_pending; assumption.
  - intros h. reflexivity.
  - intros h Hi. split; [|split].
    + intros ids. apply mark_inv, Hi.
    + intros dt. apply advance_inv, Hi.
    + apply hl_inv_length, Hi.
  - intros h b1 b2 dt Hi H1 H2 Hdt h'.
    pose proof (mark_nonempty_pending b1 h H1 Hi) as P1.
    assert (Hn1 : now (mark b1 h) = now h)
      by (destruct b1; [contradiction | reflexivity]).
    assert (Hc1 : clears (mark b1 h) = clears h)
      by (destruct b1; [contradiction | reflexivity]).
    assert (I1 : hl_inv (mark b1 h)) by (apply mark_inv, Hi).
    remember (mark b1 h) as h1 eqn:Eh1.
    assert (P2 : pending (advance dt h1) = pending h1
                 /\ clears (advance dt h1) = clears h1
                 /\ now (advance dt h1) = now h + dt).
    { unfold advance. cbn [pending clears now]. rewrite P1.
      cbn [filter fst snd].
      destruct (now h + dwell <=? now h1 + dt) eqn:E;
        [apply Z.leb_le in E; unfold dwell in *; lia|].
      cbn [negb filter List.length]. rewrite Hn1. repeat split; lia. }
    destruct P2 as (P2 & C2 & N2).
    assert (I2 : hl_inv (advance dt h1)) by (apply advance_inv, I1).
    remember (advance dt h1) as h2 eqn:Eh2.
    pose proof (mark_nonempty_pending b2 h2 H2 I2) as P3.
    assert (Hn3 : now (mark b2 h2) = now h2)
      by (destruct b2; [contradiction | reflexivity]).
    assert (Hc3 : clears (mark b2 h2) = clears h2)
      by (destruct b2; [contradiction | reflexivity]).
    remember (mark b2 h2) as h3 eqn:Eh3.
    assert (Fire : (now h2 + dwell <=? now h3 + dwell) = true)
      by (apply Z.leb_le; lia).
    unfold h', advance. cbn [clears lastAddedIds pending now].
    rewrite P3. cbn [filter fst snd]. rewrite Fire.
    cbn [List.length isHighlighted lastAddedIds existsb].
    split; [lia|]. split; [reflexivity|]. intros x. reflexivity.
Qed.

Lemma highlight_supersession_witness :
  let h' := advance dwell (mark [3%nat] (advance 500 (mark [1%nat; 2%nat] hl_init))) in
  clears h' = 1%nat /\ isHighlighted h' 1 = false.
Proof.
  intros h'.
  destruct (proj2 (proj2 (proj2 highlight_supersession))
              hl_init [1%nat; 2%nat] [3%nat] 500 hl_inv_init
              ltac:(discriminate) ltac:(discriminate)
              ltac:(unfold dwell; lia)) as (C & _ & H).
  split; [exact C | apply H].
Defined.

(** Heap lemmas: allocation keeps every cell, writes elsewhere keep every
    other cell. *)
Lemma nth_error_ext (h ext : Heap) (x : addr) (c : Cell) :
  nth_error h x = Some c -> nth_error (h ++ ext) x = Some c.
Proof.
  intros H. rewrite nth_error_app1; [exact H|].
  apply nth_error_Some. rewrite H. discriminate.
Qed.

Lemma deref_elems_ext (h ext : Heap) (xs : list addr) (ds : list Deal) :
  deref_elems h xs = Some ds -> deref_elems (h ++ ext) xs = Some ds.
Proof.
  revert ds. induction xs as [|x t IH]; intros ds H; [exact H|].
  cbn [deref_elems] in *.
  destruct (nth_error h x) as [[d|ys]|] eqn:E; try discriminate.
  destruct (deref_elems h t) as [ds'|] eqn:E2; try discriminate.
  rewrite (nth_error_ext h ext x _ E), (IH ds' eq_refl). exact H.
Qed.

Lemma arr_elems_ext (h ext : Heap) (a : addr) (xs : list addr) :
  arr_elems h a = Some xs -> arr_elems (h ++ ext) a = Some xs.
Proof.
  unfold arr_elems. destruct (nth_error h a) as [[d|ys]|] eqn:E; try discriminate.
  rewrite (nth_error_ext h ext a _ E). exact (fun H => H).
Qed.

Lemma deref_arr_ext (h ext : Heap) (a : addr) (ds : list Deal) :
  deref_arr h a = Some ds -> deref_arr (h ++ ext) a = Some ds.
Proof.
  unfold deref_arr. destruct (arr_elems h a) as [xs|] eqn:E; [|discriminate].
  rewrite (arr_elems_ext h ext a xs E). apply deref_elems_ext.
Qed.

Lemma deref_elems_bound (h : Heap) (xs : list addr) (ds : list Deal) :
  deref_elems h xs = Some ds -> forall x, In x xs -> (x < List.length h)%nat.
Proof.
  revert ds. induction xs as [|y t IH]; intros ds H x Hx; [destruct Hx|].
  cbn [deref_elems] in H.
  destruct (nth_error h y) as [[d|ys]|] eqn:E; try discriminate.
  destruct (deref_elems h t) as [ds'|] eqn:E2; try discriminate.
  destruct Hx as [<- | Hx].
  - apply nth_error_Some. rewrite E. discriminate.
  - exact (IH ds' eq_refl x Hx).
Qed.

Lemma arr_elems_bound (h : Heap) (a : addr) (xs : list addr) :
  arr_elems h a = Some xs -> (a < List.length h)%nat.
Proof.
  unfold arr_elems. intros H. apply nth_error_Some.
  destruct (nth_error h a); [discriminate | discriminate H].
Qed.

Lemma nth_error_write_other (h : Heap) (a x : addr) (c : Cell) :
  a <> x -> nth_error (write a c h) x = nth_error h x.
Proof.
  revert a x. induction h as [|y t IH]; intros a x Hne; [reflexivity|].
  destruct a as [|a], x as [|x]; cbn [write nth_error];
    [contradiction | reflexivity | reflexivity |].
  apply IH. intros ->. now apply Hne.
Qed.

Lemma deref_elems_write (h : Heap) (a : addr) (c : Cell) (xs : list addr) :
  (forall x, In x xs -> x <> a) -> deref_elems (write a c h) xs = deref_elems h xs.
Proof.
  induction xs as [|x t IH]; intros H; [reflexivity|]. cbn [deref_elems].
  rewrite nth_error_write_other by (intros E; apply (H x (or_introl eq_refl)); auto).
  rewrite IH by (intros y Hy; apply H; now right). reflexivity.
Qed.

Lemma deref_elems_app (h : Heap) (xs ys : list addr) (a b : list Deal) :
  deref_elems h xs = Some a -> deref_elems h ys = Some b ->
  deref_elems h (xs ++ ys) = Some (a ++ b).
Proof.
  revert a. induction xs as [|x t IH]; intros a Ha Hb; cbn [deref_elems app] in *.
  - injection Ha as <-. exact Hb.
  - destruct (nth_error h x) as [[d|zs]|]; try discriminate.
    destruct (deref_elems h t) as [a'|] eqn:E; try discriminate.
    injection Ha as <-. rewrite (IH a' eq_refl Hb). reflexivity.
Qed.

Lemma deref_elems_firstn (h : Heap) (xs : list addr) (ds : list Deal) (n : nat) :
  deref_elems h xs = Some ds -> deref_elems h (firstn n xs) = Some (firstn n ds).
Proof.
  revert ds n. induction xs as [|x t IH]; intros ds n H.
  - injection H as <-. destruct n; reflexivity.
  - cbn [deref_elems] in H.
    destruct (nth_error h x) as [[d|zs]|] eqn:E; try discriminate.
    destruct (deref_elems h t) as [ds'|] eqn:E2; try discriminate.
    injection H as <-. destruct n as [|n]; [reflexivity|].
    cbn [firstn deref_elems]. rewrite E, (IH ds' n eq_refl). reflexivity.
Qed.

Lemma deref_elems_length (h : Heap) (xs : list addr) (ds : list Deal) :
  deref_elems h xs = Some ds -> List.length xs = List.length ds.
Proof.
  revert ds. induction xs as [|x t IH]; intros ds H.
  - injection H as <-. reflexivity.
  - cbn [deref_elems] in H.
    destruct (nth_error h x) as [[d|zs]|]; try discriminate.
    destruct (deref_elems h t) as [ds'|] eqn:E2; try discriminate.
    injection H as <-. cbn. f_equal. exact (IH ds' eq_refl).
Qed.

Lemma filter_elems_spec (p : Deal -> bool) (h : Heap) (xs : list addr) (ds : list Deal) :
  deref_elems h xs = Some ds ->
  exists ys, filter_elems p h xs = Some ys /\ deref_elems h ys = Some (filter p ds).
Proof.
  revert ds. induction xs as [|x t IH]; intros ds H.
  - injection H as <-. exists []. split; reflexivity.
  - cbn [deref_elems] in H.
    destruct (nth_error h x) as [[d|zs]|] eqn:E; try discriminate.
    destruct (deref_elems h t) as [ds'|] eqn:E2; try discriminate.
    injection H as <-. destruct (IH ds' eq_refl) as (ys & F & D).
    cbn [filter_elems filter]. rewrite E, F.
    destruct (p d); eexists; (split; [reflexivity|]); cbn [deref_elems];
      rewrite ?E, D; reflexivity.
Qed.

Lemma alloc_objs_spec (ds : list Deal) (h : Heap) :
  alloc_objs ds h = (h ++ map ObjCell ds, seq (List.length h) (List.length ds)).
Proof.
  revert h. induction ds as [|d t IH]; intros h; cbn [alloc_objs].
  - rewrite app_nil_r. reflexivity.
  - unfold alloc. rewrite IH, <- app_assoc, length_app. cbn.
    rewrite Nat.add_1_r. reflexivity.
Qed.

Lemma deref_alloc_objs (ds : list Deal) (h : Heap) :
  deref_elems (h ++ map ObjCell ds) (seq (List.length h) (List.length ds)) = Some ds.
Proof.
  revert h. induction ds as [|d t IH]; intros h; [reflexivity|].
  cbn [List.length seq map deref_elems].
  rewrite nth_error_app2, Nat.sub_diag by lia. cbn [nth_error].
  replace (h ++ ObjCell d :: map ObjCell t) with ((h ++ [ObjCell d]) ++ map ObjCell t)
    by (rewrite <- app_assoc; reflexivity).
  replace (S (List.length h)) with (List.length (h ++ [ObjCell d]))
    by (rewrite length_app; cbn; lia).
  rewrite IH. reflexivity.
Qed.

Lemma nth_error_alloc (h : Heap) (c : Cell) (ext : Heap) :
  nth_error ((h ++ [c]) ++ ext) (List.length h) = Some c.
Proof.
  apply nth_error_ext. rewrite nth_error_app2, Nat.sub_diag by lia. reflexivity.
Qed.

Lemma patch_elems_spec (i : nat) (t : jsstr) (h : Heap) (xs : list addr) (ds : list Deal) :
  deref_elems h xs = Some ds ->
  exists h1 ys ext, patch_elems i t h xs = Some (h1, ys) /\ h1 = h ++ ext
    /\ deref_elems h1 ys
       = Some (map (fun d => if Nat.eqb (id d) i then with_rewritten d t else d) ds).
Proof.
  revert h ds. induction xs as [|x r IH]; intros h ds H.
  - injection H as <-. exists h, [], []. rewrite app_nil_r. repeat split.
  - cbn [deref_elems] in H.
    destruct (nth_error h x) as [[d|zs]|] eqn:E; try discriminate.
    destruct (deref_elems h r) as [ds'|] eqn:E2; try discriminate.
    injection H as <-. cbn [patch_elems map]. rewrite E.
    destruct (Nat.eqb (id d) i).
    + unfold alloc.
      destruct (IH (h ++ [ObjCell (with_rewritten d t)]) ds'
                  (deref_elems_ext _ _ _ _ E2)) as (h2 & ys & ext & P & -> & D).
      rewrite P. exists ((h ++ [ObjCell (with_rewritten d t)]) ++ ext),
                        (List.length h :: ys), (ObjCell (with_rewritten d t) :: ext).
      split; [reflexivity|]. split; [rewrite <- app_assoc; reflexivity|].
      cbn [deref_elems]. rewrite nth_error_alloc, D. reflexivity.
    + destruct (IH h ds' E2) as (h2 & ys & ext & P & -> & D).
      rewrite P. exists (h ++ ext), (x :: ys), ext.
      split; [reflexivity|]. split; [reflexivity|].
      cbn [deref_elems]. rewrite (nth_error_ext h ext x _ E), D. reflexivity.
Qed.

Lemma deref_arr_inv (h : Heap) (a : addr) (ds : list Deal) :
  deref_arr h a = Some ds ->
  exists xs, arr_elems h a = Some xs /\ deref_elems h xs = Some ds.
Proof.
  unfold deref_arr. destruct (arr_elems h a) as [xs|]; [|discriminate].
  intros H. exists xs. split; [reflexivity | exact H].
Qed.

(** Both merges allocate only: the result is a new array holding the
    collection the list model computes. *)
Lemma heap_merge_spec (pre : bool) (n : nat) (batch : list Deal) (h : Heap)
    (dref : addr) (prev : list Deal) :
  deref_arr h dref = Some prev ->
  let u := uniqueNew dedupeKey prev (assign_ids n batch) in
  exists h' a ext, heap_merge pre n batch h dref = Some (h', a)
    /\ h' = h ++ ext /\ nth_error h a = None
    /\ deref_arr h' a = Some (if pre then u ++ prev else prev ++ u).
Proof.
  intros Hd u. destruct (deref_arr_inv h dref prev Hd) as (xs & Hx & Hp).
  unfold heap_merge. rewrite Hx, Hd, alloc_objs_spec.
  set (nd := assign_ids n batch) in *.
  set (h1 := h ++ map ObjCell nd).
  set (h2 := h1 ++ [ArrCell (seq (List.length h) (List.length nd))]).
  assert (D2 : deref_elems h2 (seq (List.length h) (List.length nd)) = Some nd)
    by (apply deref_elems_ext, deref_alloc_objs).
  destruct (filter_elems_spec (fun d => (truthy (deal_key dedupeKey d)
                               && negb (set_has (existingKeys dedupeKey prev)
                                                (deal_key dedupeKey d)))%bool)
              h2 _ nd D2) as (uas & F & Du).
  unfold alloc. cbv beta iota zeta. fold h2. rewrite F.
  set (h3 := h2 ++ [ArrCell uas]).
  exists (h3 ++ [ArrCell (if pre then uas ++ xs else xs ++ uas)]), (List.length h3).
  eexists. split; [reflexivity|]. split.
  { unfold h3, h2, h1. rewrite <- !app_assoc. reflexivity. }
  split.
  { apply nth_error_None. unfold h3, h2, h1. rewrite !length_app. lia. }
  unfold deref_arr, arr_elems.
  rewrite nth_error_app2, Nat.sub_diag by lia. cbn [nth_error].
  assert (Dx : deref_elems (h3 ++ [ArrCell (if pre then uas ++ xs else xs ++ uas)]) xs
               = Some prev).
  { unfold h3, h2, h1. rewrite <- !app_assoc. apply deref_elems_ext, Hp. }
  assert (Du' : deref_elems (h3 ++ [ArrCell (if pre then uas ++ xs else xs ++ uas)]) uas
                = Some u).
  { unfold h3. rewrite <- app_assoc. apply deref_elems_ext. exact Du. }
  destruct pre; apply deref_elems_app; assumption.
Qed.

Lemma heap_patch_spec (i : nat) (t : jsstr) (h : Heap) (dref : addr) (prev : list Deal) :
  deref_arr h dref = Some prev ->
  exists h' a ext, heap_patch i t h dref = Some (h', a)
    /\ h' = h ++ ext /\ nth_error h a = None
    /\ deref_arr h' a
       = Some (map (fun d => if Nat.eqb (id d) i then with_rewritten d t else d) prev).
Proof.
  intros Hd. destruct (deref_arr_inv h dref prev Hd) as (xs & Hx & Hp).
  destruct (patch_elems_spec i t h xs prev Hp) as (h1 & ys & ext & P & -> & D).
  unfold heap_patch. rewrite Hx, P. unfold alloc.
  exists ((h ++ ext) ++ [ArrCell ys]), (List.length (h ++ ext)), (ext ++ [ArrCell ys]).
  split; [reflexivity|]. split; [rewrite <- app_assoc; reflexivity|]. split.
  { apply nth_error_None. rewrite length_app. lia. }
  unfold deref_arr, arr_elems.
  rewrite nth_error_app2, Nat.sub_diag by lia. cbn [nth_error].
  apply deref_elems_ext, D.
Qed.

Lemma search_complete_deals (kw : string) (r : Response) (s : State) :
  deals (search_complete kw r s)
  = match r with
    | Http true b =>
        if success b
        then uniqueNew dedupeKey (deals s) (assign_ids (next_id s) (body_deals b)) ++ deals s
        else deals s
    | _ => deals s
    end.
Proof.
  destruct r as [m | [|] b]; [reflexivity | | reflexivity].
  unfold search_complete. cbn [negb]. destruct (success b); reflexivity.
Qed.

Lemma loadMore_complete_deals (req : Request) (r : Response) (s : State) :
  deals (loadMore_complete req r s)
  = match r with
    | Http _ b =>
        if success b
        then deals s ++ uniqueNew dedupeKey (deals s) (assign_ids (next_id s) (body_deals b))
        else deals s
    | _ => deals s
    end.
Proof.
  destruct r as [m | ok b]; [reflexivity|].
  unfold loadMore_complete. destruct (success b); [|reflexivity].
  destruct (Nat.eqb _ 0); reflexivity.
Qed.

(** Events that are allowed to write the raw collection: the two merges
    and the rewrite patch. *)
Definition writes_deals (e : Event) : bool :=
  match e with
  | EvSearchComplete _ _ | EvLoadMoreComplete _ _ | EvRewrite _ _ _ => true
  | _ => false
  end.

Lemma step_frame (e : Event) (s : State) :
  writes_deals e = false -> deals (step e s) = deals s.
Proof.
  intros He. destruct e; try discriminate He; simpl; try reflexivity.
  - unfold searchProducts, search_begin.
    destruct (String.eqb (trim q) ""%string); reflexivity.
  - unfold search_begin. destruct (String.eqb (trim keyword) ""%string); reflexivity.
  - unfold loadMore_call.
    destruct (isLoadingMore (sess cap) || noMorePages (sess cap)); reflexivity.
Qed.

(** C10: on the heap, where an in-place write of the [deals] array or of a
    deal object is expressible ([write]), no event of the controller and no
    render writes a cell: the heap only grows, so the array [deals] refers
    to and every deal object keep their contents. [filtered] and
    [displayedDeals] are two new arrays (cells that did not exist before
    the render), holding exactly the list-model [filtered] and
    [displayedDeals]; an in-place write into either of them ([sort],
    [push], ...) leaves the collection as it is. Only the two merges and
    the rewrite patch rebind [deals], each to a new array holding the
    collection the list model computes; every other event, among them the
    changes of [minDiscount], [showOnlyWithCodes] and [maxResults], keeps
    [deals] referring to the same array. *)
Theorem only_merges_write_deals (e : Event) (hs : HState) :
  hinv hs ->
  (exists hs', hstep e hs = Some hs'
     /\ ui hs' = step e (ui hs)
     /\ hinv hs'
     /\ (exists ext, heap hs' = heap hs ++ ext)
     /\ (deals_ref hs' = deals_ref hs \/ nth_error (heap hs) (deals_ref hs') = None)
     /\ (writes_deals e = false ->
           deals_ref hs' = deals_ref hs /\ deals (ui hs') = deals (ui hs)))
  /\ (exists h' fa da,
        render_view (heap hs) (deals_ref hs) (filt (ui hs)) = Some (h', fa, da)
        /\ (exists ext, h' = heap hs ++ ext)
        /\ nth_error (heap hs) fa = None /\ nth_error (heap hs) da = None /\ fa <> da
        /\ deref_arr h' fa = Some (filtered (ui hs))
        /\ deref_arr h' da = Some (displayedDeals (ui hs))
        /\ deref_arr h' (deals_ref hs) = Some (deals (ui hs))
        /\ (forall c, deref_arr (write fa c h') (deals_ref hs) = Some (deals (ui hs)))
        /\ (forall c, deref_arr (write da c h') (deals_ref hs) = Some (deals (ui hs)))).
Proof.
  intros Hi. split.
  - (* events *)
    assert (Keep : deals (step e (ui hs)) = deals (ui hs) ->
                   hstep e hs = Some (mkHS (heap hs) (deals_ref hs) (step e (ui hs))) ->
                   exists hs', hstep e hs = Some hs'
                     /\ ui hs' = step e (ui hs) /\ hinv hs'
                     /\ (exists ext, heap hs' = heap hs ++ ext)
                     /\ (deals_ref hs' = deals_ref hs
                         \/ nth_error (heap hs) (deals_ref hs') = None)
                     /\ (writes_deals e = false ->
                           deals_ref hs' = deals_ref hs /\ deals (ui hs') = deals (ui hs))).
    { intros Hd Hstep. eexists. split; [exact Hstep|]. cbn [ui heap deals_ref].
      split; [reflexivity|]. split; [unfold hinv; cbn [heap deals_ref ui]; rewrite Hd; exact Hi|].
      split; [exists []; symmetry; apply app_nil_r|]. split; [now left|]. intros _. auto. }
    assert (Rebind : forall h' a ext,
                     h' = heap hs ++ ext -> nth_error (heap hs) a = None ->
                     deref_arr h' a = Some (deals (step e (ui hs))) ->
                     writes_deals e = true ->
                     hstep e hs = Some (mkHS h' a (step e (ui hs))) ->
                     exists hs', hstep e hs = Some hs'
                       /\ ui hs' = step e (ui hs) /\ hinv hs'
                       /\ (exists ext, heap hs' = heap hs ++ ext)
                       /\ (deals_ref hs' = deals_ref hs
                           \/ nth_error (heap hs) (deals_ref hs') = None)
                       /\ (writes_deals e = false ->
                             deals_ref hs' = deals_ref hs /\ deals (ui hs') = deals (ui hs))).
    { intros h' a ext Eh Ha Hd Hw Hstep. eexists. split; [exact Hstep|].
      cbn [ui heap deals_ref]. split; [reflexivity|]. split; [exact Hd|].
      split; [exists ext; exact Eh|]. split; [now right|].
      rewrite Hw. discriminate. }
    destruct e as [z|z|b|b|q|k|k r|cap|req r|i ok t|dt];
      try (apply Keep; [apply step_frame; reflexivity | reflexivity]).
    + (* fresh-search completion *)
      destruct r as [m | [|] b];
        try (apply Keep; reflexivity).
      destruct (success b) eqn:Hs.
      * destruct (heap_merge_spec true (next_id (ui hs)) (body_deals b) (heap hs)
                    (deals_ref hs) _ Hi) as (h' & a & ext & M & Eh & Ha & D).
        apply (Rebind h' a ext Eh Ha); [| reflexivity |].
        -- cbn [step]. rewrite search_complete_deals, Hs. exact D.
        -- unfold hstep. cbn [step]. rewrite Hs, M. reflexivity.
      * apply Keep.
        -- cbn [step]. rewrite search_complete_deals, Hs. reflexivity.
        -- unfold hstep. rewrite Hs. reflexivity.
    + (* pagination completion *)
      destruct r as [m | ok b];
        [apply Keep; [reflexivity | reflexivity]|].
      destruct (success b) eqn:Hs.
      * destruct (heap_merge_spec false (next_id (ui hs)) (body_deals b) (heap hs)
                    (deals_ref hs) _ Hi) as (h' & a & ext & M & Eh & Ha & D).
        apply (Rebind h' a ext Eh Ha); [| reflexivity |].
        -- cbn [step]. rewrite loadMore_complete_deals, Hs. exact D.
        -- unfold hstep. cbn [step]. rewrite Hs, M. reflexivity.
      * apply Keep.
        -- cbn [step]. rewrite loadMore_complete_deals, Hs. reflexivity.
        -- unfold hstep. rewrite Hs. reflexivity.
    + (* rewrite patch *)
      destruct ok; [|apply Keep; reflexivity].
      destruct (heap_patch_spec i t (heap hs) (deals_ref hs) _ Hi)
        as (h' & a & ext & P & Eh & Ha & D).
      apply (Rebind h' a ext Eh Ha); [exact D | reflexivity |].
      unfold hstep. rewrite P. reflexivity.
  - (* render *)
    destruct (deref_arr_inv _ _ _ Hi) as (xs & Hx & Hd).
    destruct (filter_elems_spec (view_pred (minDiscount (filt (ui hs)))
                                  (showOnlyWithCodes (filt (ui hs))))
                (heap hs) xs _ Hd) as (ys & F & Dy).
    pose proof (arr_elems_bound _ _ _ Hx) as Bd.
    pose proof (deref_elems_bound _ _ _ Hd) as Bx.
    unfold render_view. rewrite Hx, F. unfold alloc.
    set (h := heap hs) in *.
    set (zs := firstn (slice_end (maxResults (filt (ui hs))) (List.length ys)) ys).
    set (h' := (h ++ [ArrCell ys]) ++ [ArrCell zs]).
    assert (Hn : forall c, nth_error h (List.length h) = Some c -> False).
    { intros c E. assert (L : (List.length h < List.length h)%nat)
        by (apply nth_error_Some; rewrite E; discriminate). lia. }
    assert (Dx : deref_arr h' (deals_ref hs) = Some (deals (ui hs))).
    { unfold h'. rewrite <- app_assoc. apply deref_arr_ext, Hi. }
    exists h', (List.length h), (List.length (h ++ [ArrCell ys])).
    rewrite length_app. cbn [List.length].
    split; [reflexivity|].
    split; [exists [ArrCell ys; ArrCell zs]; unfold h'; rewrite <- app_assoc; reflexivity|].
    split; [apply nth_error_None; lia|].
    split; [apply nth_error_None; lia|].
    split; [lia|].
    split.
    { unfold deref_arr, arr_elems, h'. rewrite nth_error_alloc.
      rewrite <- app_assoc. apply deref_elems_ext, Dy. }
    split.
    { unfold deref_arr, arr_elems, h'.
      rewrite nth_error_app2, length_app by (rewrite length_app; cbn; lia).
      cbn [List.length]. rewrite Nat.sub_diag. cbn [nth_error].
      unfold zs. rewrite (deref_elems_length _ _ _ Dy).
      rewrite <- app_assoc. apply deref_elems_ext, deref_elems_firstn, Dy. }
    split; [exact Dx|].
    assert (Wr : forall a c, (List.length h <= a)%nat ->
                 deref_arr (write a c h') (deals_ref hs) = Some (deals (ui hs))).
    { intros a c La. revert Dx. unfold deref_arr, arr_elems.
      rewrite nth_error_write_other by lia.
      assert (Ex : nth_error h' (deals_ref hs) = nth_error h (deals_ref hs)).
      { unfold h'. rewrite <- app_assoc. rewrite nth_error_app1 by lia. reflexivity. }
      unfold arr_elems in Hx. rewrite Ex.
      destruct (nth_error h (deals_ref hs)) as [[d|ws]|]; try discriminate.
      injection Hx as ->.
      intros Dx. rewrite deref_elems_write; [exact Dx|].
      intros x Hin. pose proof (Bx x Hin). lia. }
    split; intros c; apply Wr; lia.
Qed.

Definition hs_example : HState :=
  mkHS [ObjCell (deal_asin_disc "A1" 40); ArrCell [0%nat]] 1%nat
       (set_deals [deal_asin_disc "A1" 40] init_state).

Lemma only_merges_write_deals_witness :
  exists hs', hstep (EvSetMinDiscount 50) hs_example = Some hs'
              /\ deals_ref hs' = deals_ref hs_example.
Proof.
  destruct (proj1 (only_merges_write_deals (EvSetMinDiscount 50) hs_example eq_refl))
    as (hs' & E & _ & _ & _ & _ & F).
  exists hs'. split; [exact E | exact (proj1 (F eq_refl))].
Defined.

(* ================================================================ *)
(** * Further properties of the code                                 *)
(* ================================================================ *)

Lemma repl_crlf_in_both (l : text) :
  (forall x, In x (repl_crlf l) -> In x l \/ x = LF)
  /\ (forall c x, In x (repl_crlf (c :: l)) -> In x (c :: l) \/ x = LF).
Proof.
  induction l as [|d t [IHa IHb]].
  - split; [simpl; tauto|]. intros c x. simpl.
    destruct (c =? CR); simpl; tauto.
  - assert (A : forall x, In x (repl_crlf (d :: t)) -> In x (d :: t) \/ x = LF)
      by exact (IHb d).
    split; [exact A|]. intros c x. cbn [repl_crlf].
    destruct (c =? CR); [destruct (d =? LF)|].
    + intros [<- | H]; [now right|]. destruct (IHa x H); simpl; tauto.
    + intros [<- | H]; [left; now left|]. destruct (A x H); simpl; tauto.
    + intros [<- | H]; [left; now left|]. destruct (A x H); simpl; tauto.
Qed.

Lemma repl_crlf_in (l : text) (x : Z) :
  In x (repl_crlf l) -> In x l \/ x = LF.
Proof. apply (proj1 (repl_crlf_in_both l)). Qed.

Lemma repl_cr_in (l : text) (x : Z) :
  In x (repl_cr l) -> (In x l /\ x <> CR) \/ x = LF.
Proof.
  unfold repl_cr. rewrite in_map_iff. intros (c & <- & Hc).
  destruct (Z.eqb_spec c CR); [now right|]. left; auto.
Qed.

Lemma collapse_aux_in (l : text) (n : nat) (x : Z) :
  In x (collapse_aux n l) -> In x l \/ x = LF.
Proof.
  assert (Hr : forall m, In x (emit_run m) -> x = LF).
  { intros m H. unfold emit_run in H. apply repeat_spec in H. exact H. }
  revert n. induction l as [|c t IH]; intros n; simpl.
  - intros H. right. exact (Hr n H).
  - destruct (c =? LF).
    + intros H. destruct (IH (S n) H); auto.
    + intros H. apply in_app_or in H as [H | [<- | H]].
      * right; exact (Hr n H).
      * left; left; reflexivity.
      * destruct (IH 0%nat H); auto.
Qed.

Lemma strip_zero_width_in (l : text) (x : Z) :
  In x (strip_zero_width l) -> In x l /\ is_zero_width x = false.
Proof.
  unfold strip_zero_width. rewrite filter_In. intros [H1 H2].
  split; [exact H1|]. destruct (is_zero_width x); [discriminate | reflexivity].
Qed.

Lemma drop_while_suffix (f : Z -> bool) (l : text) :
  exists p, l = p ++ drop_while f l.
Proof.
  induction l as [|c t [p Hp]]; simpl; [exists []; reflexivity|].
  destruct (f c); [exists (c :: p); simpl; rewrite <- Hp; reflexivity|].
  exists []; reflexivity.
Qed.

Lemma drop_while_head (f : Z -> bool) (l : text) :
  match drop_while f l with [] => True | c :: _ => f c = false end.
Proof.
  induction l as [|c t IH]; simpl; [exact I|].
  destruct (f c) eqn:E; [exact IH | exact E].
Qed.

Lemma js_trim_infix (l : text) :
  exists p q, l = p ++ js_trim l ++ q.
Proof.
  unfold js_trim.
  destruct (drop_while_suffix is_js_ws l) as [p Hp].
  set (a := drop_while is_js_ws l) in *.
  destruct (drop_while_suffix is_js_ws (rev a)) as [q Hq].
  set (b := drop_while is_js_ws (rev a)) in *.
  exists p, (rev q).
  assert (Ha : a = rev b ++ rev q).
  { rewrite <- rev_app_distr, <- Hq, rev_involutive. reflexivity. }
  rewrite Hp, Ha at 1. reflexivity.
Qed.

Lemma js_trim_in (l : text) (x : Z) : In x (js_trim l) -> In x l.
Proof.
  intros H. destruct (js_trim_infix l) as (p & q & E). rewrite E.
  apply in_or_app. right. apply in_or_app. now left.
Qed.

Lemma no_nl3_repeat (j k : nat) (r : text) :
  (k + j <= 2)%nat -> no_nl3_from k (repeat LF j ++ r) = no_nl3_from (k + j) r.
Proof.
  revert k. induction j as [|j IH]; intros k H; cbn [repeat app].
  - rewrite Nat.add_0_r. reflexivity.
  - cbn [no_nl3_from]. rewrite Z.eqb_refl.
    replace (Nat.leb 2 k) with false by (symmetry; apply Nat.leb_gt; lia).
    rewrite IH by lia. f_equal. lia.
Qed.

Lemma emit_run_le (n : nat) :
  (List.length (emit_run n) <= 2)%nat /\ emit_run n = repeat LF (if Nat.leb 3 n then 2 else n).
Proof.
  unfold emit_run. rewrite repeat_length. split; [|reflexivity].
  destruct (Nat.leb_spec 3 n); lia.
Qed.

Lemma collapse_aux_no_nl3 (l : text) (n : nat) :
  no_nl3_from 0 (collapse_aux n l) = true.
Proof.
  revert n. induction l as [|c t IH]; intros n; simpl.
  - unfold emit_run. rewrite <- (app_nil_r (repeat LF _)).
    rewrite no_nl3_repeat by (destruct (Nat.leb_spec 3 n); lia). reflexivity.
  - destruct (c =? LF) eqn:E; [apply IH|].
    unfold emit_run. rewrite no_nl3_repeat by (destruct (Nat.leb_spec 3 n); lia).
    cbn [no_nl3_from]. rewrite E. apply IH.
Qed.

Lemma no_nl3_mono (l : text) :
  forall k k', (k' <= k)%nat -> no_nl3_from k l = true -> no_nl3_from k' l = true.
Proof.
  induction l as [|c t IH]; intros k k' Hk H; cbn [no_nl3_from] in *;
    [reflexivity|].
  destruct (c =? LF); [|exact H].
  destruct (Nat.leb_spec 2 k'); [destruct (Nat.leb_spec 2 k); [discriminate | lia]|].
  destruct (Nat.leb 2 k); [discriminate|]. apply (IH (S k)); [lia | exact H].
Qed.

Lemma no_nl3_app (a b : text) :
  forall k, no_nl3_from k (a ++ b) = true ->
  no_nl3_from k a = true /\ no_nl3_from 0 b = true.
Proof.
  induction a as [|c t IH]; intros k H; cbn [app no_nl3_from] in *.
  - split; [reflexivity|]. apply (no_nl3_mono b k 0); [lia | exact H].
  - destruct (c =? LF); [destruct (Nat.leb 2 k); [discriminate|]|]; apply IH, H.
Qed.

Lemma filter_id {A} (f : A -> bool) (l : list A) :
  (forall x, In x l -> f x = true) -> filter f l = l.
Proof.
  induction l as [|a l IH]; intros H; simpl; [reflexivity|].
  rewrite (H a (or_introl eq_refl)), IH; [reflexivity|].
  intros x Hx. apply H. now right.
Qed.

Lemma js_trim_edges (l : text) :
  match js_trim l with [] => True | c :: _ => is_js_ws c = false end
  /\ match rev (js_trim l) with [] => True | c :: _ => is_js_ws c = false end.
Proof.
  unfold js_trim. rewrite rev_involutive.
  set (a := drop_while is_js_ws l).
  set (b := drop_while is_js_ws (rev a)).
  split; [|apply drop_while_head].
  destruct (drop_while_suffix is_js_ws (rev a)) as [q Hq]. fold b in Hq.
  assert (Ha : a = rev b ++ rev q).
  { rewrite <- rev_app_distr, <- Hq, rev_involutive. reflexivity. }
  pose proof (drop_while_head is_js_ws l) as Hh. fold a in Hh.
  destruct (rev b) as [|c r]; [exact I|]. rewrite Ha in Hh. exact Hh.
Qed.

(** X1: the text [copy] puts on the clipboard contains no carriage return
    and none of the zero-width characters U+200B..U+200D, U+FEFF. *)
Theorem cleanText_no_cr_no_zero_width (l : text) :
  ~ In CR (cleanText l)
  /\ (forall x, In x (cleanText l) -> is_zero_width x = false).
Proof.
  assert (H : forall x, In x (cleanText l) ->
                        (x <> CR \/ x = LF) /\ is_zero_width x = false).
  { intros x Hx. unfold cleanText in Hx. apply js_trim_in in Hx.
    apply strip_zero_width_in in Hx as [Hx Hz]. split; [|exact Hz].
    apply collapse_aux_in in Hx as [Hx | Hx]; [|now right].
    apply repl_cr_in in Hx as [[_ Hx] | Hx]; [now left | now right]. }
  split.
  - intros Hin. destruct (H CR Hin) as [[Hc | Hc] _]; [now apply Hc | discriminate Hc].
  - intros x Hx. exact (proj2 (H x Hx)).
Qed.

(** X2: the text [copy] puts on the clipboard neither starts nor ends with
    a white-space or line-terminator code unit. *)
Theorem cleanText_trimmed (l : text) :
  match cleanText l with [] => True | c :: _ => is_js_ws c = false end
  /\ match rev (cleanText l) with [] => True | c :: _ => is_js_ws c = false end.
Proof. apply js_trim_edges. Qed.

(** X3: when the copied text contains no zero-width character, the
    cleaned text has no run of three or more newlines (runs are cut to
    two). *)
Theorem cleanText_no_triple_newline (l : text) :
  forallb (fun c => negb (is_zero_width c)) l = true ->
  no_nl3 (cleanText l) = true.
Proof.
  intros Hl. rewrite forallb_forall in Hl.
  set (m := collapse_nl (repl_cr (repl_crlf l))).
  assert (Hs : strip_zero_width m = m).
  { apply filter_id. intros x Hx.
    apply collapse_aux_in in Hx as [Hx | ->]; [|reflexivity].
    apply repl_cr_in in Hx as [[Hx _] | ->]; [|reflexivity].
    apply repl_crlf_in in Hx as [Hx | ->]; [apply Hl, Hx | reflexivity]. }
  unfold cleanText. fold m. rewrite Hs.
  pose proof (collapse_aux_no_nl3 (repl_cr (repl_crlf l)) 0) as Hm.
  change (no_nl3_from 0 m = true) in Hm.
  destruct (js_trim_infix m) as (p & q & E).
  rewrite E in Hm. apply no_nl3_app in Hm as [_ Hm].
  apply no_nl3_app in Hm as [Hm _].
  apply (no_nl3_mono _ 0 0); [lia | exact Hm].
Qed.

Lemma cleanText_no_triple_newline_witness :
  no_nl3 (cleanText [32; 65; 13; 10; 13; 10; 10; 10; 66; 9]) = true.
Proof.
  exact (cleanText_no_triple_newline [32; 65; 13; 10; 13; 10; 10; 10; 66; 9]
           eq_refl).
Defined.

(** X4: with a non-negative display cap, the scroll sentinel calls
    [loadMoreFromServer] exactly when it is visible and the cap
    [maxResults] hides some filtered deals. When every filtered deal is
    shown, scrolling to the sentinel requests no page. *)
Theorem sentinel_needs_hidden_deals (vis : bool) (s : State) :
  0 <= maxResults (filt s) ->
  (sentinel_triggers vis s = true
   <-> vis = true /\ maxResults (filt s) < Z.of_nat (List.length (filtered s))).
Proof.
  intros H0. unfold sentinel_triggers, displayedDeals, slice0.
  rewrite length_firstn, andb_true_iff, Nat.ltb_lt.
  unfold slice_end. destruct (maxResults (filt s) <? 0) eqn:E;
    [rewrite Z.ltb_lt in E; lia|].
  split; intros [Hv H]; split; auto; lia.
Qed.

Lemma sentinel_needs_hidden_deals_witness :
  let s := setMaxResults 1 (set_deals [deal_asin_disc "A1" 30;
                                       deal_asin_disc "A2" 40] init_state) in
  sentinel_triggers true s = true.
Proof.
  intros s.
  apply (proj2 (sentinel_needs_hidden_deals true s ltac:(cbn; lia))).
  split; [reflexivity | cbn; lia].
Defined.

(** X5: the Search button. A query that trims to empty does nothing and
    sends no request. Any other query resets the page to 1, clears the
    exhaustion flag and records the keyword before the fetch, so even when
    that fetch then fails the session stays reset while the deals are
    kept and an error is shown. *)
Theorem searchProducts_resets_session (q : string) (s : State) (r : Response) :
  (String.eqb (trim q) ""%string = true -> searchProducts q s = (s, None))
  /\ (String.eqb (trim q) ""%string = false -> search_failed r = true ->
      exists s1 req,
        searchProducts q s = (s1, Some req)
        /\ req_keyword req = trim q /\ req_page req = 1 /\ req_pageSize req = 30
        /\ serverPage (sess (search_complete q r s1)) = 1
        /\ noMorePages (sess (search_complete q r s1)) = false
        /\ lastKeyword (sess (search_complete q r s1)) = q
        /\ deals (search_complete q r s1) = deals s
        /\ error (sess (search_complete q r s1)) <> ""%string).
Proof.
  split.
  - intros H. unfold searchProducts. rewrite H. reflexivity.
  - intros H Hf. unfold searchProducts. rewrite H.
    unfold search_begin. cbn [setLastKeyword setNoMorePages setServerPage
                                set_sess sess lastKeyword].
    rewrite H. eexists; eexists. split; [reflexivity|].
    match goal with
    | |- context [search_complete q r ?t] =>
        destruct (search_complete_failed q r t Hf) as (msg & Hm & E)
    end.
    rewrite E. cbn. repeat split; auto.
Qed.

Lemma searchProducts_resets_session_witness :
  let s := setNoMorePages true (setServerPage 4 init_state) in
  exists s1 req, searchProducts "laptop" s = (s1, Some req)
    /\ serverPage (sess (search_complete "laptop" (Throws "offline") s1)) = 1.
Proof.
  intros s.
  destruct (proj2 (searchProducts_resets_session "laptop" s (Throws "offline"))
              eq_refl eq_refl) as (s1 & req & E & _ & _ & _ & P & _).
  exists s1, req. split; [exact E | exact P].
Defined.






(** X8: a page request still in flight when a new search succeeds is not
    dropped. When it settles with [success], its deals of the old keyword
    are appended to the new search's collection and [serverPage] is set to
    the page the old session asked for, while the session keeps the new
    keyword. *)
Theorem stale_page_after_search (cap s s1 : State) (req : Request) (q : string)
    (b1 b2 : Body) (ok : bool) :
  loadMore_call cap s = (s1, Some req) ->
  success b1 = true -> success b2 = true ->
  let s2 := search_complete q (Http true b1) s1 in
  let s3 := loadMore_complete req (Http ok b2) s2 in
  req_keyword req = lastKeyword (sess cap)
  /\ lastKeyword (sess s3) = q
  /\ serverPage (sess s2) = 1
  /\ serverPage (sess s3) = serverPage (sess cap) + 1
  /\ deals s3 = deals s2 ++ uniqueNew dedupeKey (deals s2)
                                     (assign_ids (next_id s2) (body_deals b2))
  /\ isLoadingMore (sess s3) = false.
Proof.
  intros E H1 H2 s2 s3. unfold loadMore_call in E.
  destruct (isLoadingMore (sess cap) || noMorePages (sess cap)); [discriminate|].
  injection E as _ <-.
  assert (D : deals s3 = deals s2 ++ uniqueNew dedupeKey (deals s2)
                                     (assign_ids (next_id s2) (body_deals b2)))
    by (unfold s3; rewrite loadMore_complete_deals, H2; reflexivity).
  assert (P2 : serverPage (sess s2) = 1 /\ lastKeyword (sess s2) = q).
  { unfold s2, search_complete. cbn [negb]. rewrite H1. split; reflexivity. }
  destruct P2 as [P2 K2]. clearbody s2.
  repeat split; try exact P2; try exact D; try reflexivity;
    unfold s3, loadMore_complete; rewrite H2; destruct (Nat.eqb _ 0); cbn;
    first [exact K2 | reflexivity].
Qed.

Lemma stale_page_after_search_witness :
  let cap := setLastKeyword "tv" (setServerPage 3 (set_deals [deal_asin "A1"] init_state)) in
  let s1 := setIsLoadingMore true cap in
  let req := mkReq "tv" 20 4 serverPageSize false in
  serverPage (sess (loadMore_complete req (Http true (mkBody true [deal_asin "T9"] None None))
                      (search_complete "laptop" (Http true (mkBody true [deal_asin "L1"] None None)) s1)))
  = 4.
Proof.
  intros cap s1 req.
  exact (proj1 (proj2 (proj2 (proj2 (stale_page_after_search cap cap s1 req "laptop"
           (mkBody true [deal_asin "L1"] None None)
           (mkBody true [deal_asin "T9"] None None) true eq_refl eq_refl eq_refl))))).
Defined.

(** X9: the per-deal rewrite patch changes neither the dedup keys nor
    the local ids nor the order of the collection, nor which deals the
    filtered view shows; a failed rewrite leaves the collection as it
    is. *)
Theorem rewrite_patch_preserves (k : field) (i : nat) (ok : bool) (t : jsstr)
    (s : State) :
  existingKeys k (deals (rewrite_done i ok t s)) = existingKeys k (deals s)
  /\ map id (deals (rewrite_done i ok t s)) = map id (deals s)
  /\ map id (filtered (rewrite_done i ok t s)) = map id (filtered s)
  /\ (ok = false -> rewrite_done i ok t s = s).
Proof.
  unfold rewrite_done. destruct ok; [|repeat split; reflexivity].
  set (f := fun d => if Nat.eqb (id d) i then with_rewritten d t else d).
  assert (Hk : forall d, deal_key k (f d) = deal_key k d).
  { intros d. unfold f. destruct (Nat.eqb (id d) i); [destruct k|]; reflexivity. }
  assert (Hi : forall d, id (f d) = id d).
  { intros d. unfold f. destruct (Nat.eqb (id d) i); reflexivity. }
  assert (Hp : forall d, discount (f d) = discount d /\ getDealCode (f d) = getDealCode d).
  { intros d. unfold f. destruct (Nat.eqb (id d) i); split; reflexivity. }
  cbn [deals set_deals]. split; [|split; [|split]].
  - unfold existingKeys. rewrite map_map. apply map_ext. exact Hk.
  - rewrite map_map. apply map_ext. exact Hi.
  - unfold filtered, filtered_of. cbn [filt deals set_deals].
    rewrite filter_map_swap, map_map.
    erewrite filter_ext_in.
    + apply map_ext. exact Hi.
    + intros d _. destruct (Hp d) as [-> ->]. reflexivity.
  - discriminate.
Qed.

Lemma rewrite_patch_preserves_witness :
  rewrite_done 0 false (Some "new"%string) (set_deals [deal_asin "A1"] init_state)
  = set_deals [deal_asin "A1"] init_state.
Proof.
  exact (proj2 (proj2 (proj2 (rewrite_patch_preserves F_asin 0 false
           (Some "new"%string) (set_deals [deal_asin "A1"] init_state))))
           eq_refl).
Defined.



(** X11: the external AI Rewrite button always clears the previously
    rewritten text first. With a URL that trims to empty it raises the
    alert ["Please enter a URL"], sends no request and leaves
    [rewritingExternal] cleared. Otherwise it sends the trimmed URL; once
    the response settles [rewritingExternal] is cleared, and a failure
    (thrown request, or neither [success] nor [retry]) raises one alert
    and leaves the rewritten text empty. *)
Theorem externalRewrite_outcomes (e : External) (r : RewriteResponse) :
  externalRewritten (fst (externalRewrite_begin e)) = Some ""%string
  /\ (String.eqb (trim (externalUrl e)) ""%string = true ->
        snd (externalRewrite_begin e) = None
        /\ rewritingExternal (fst (externalRewrite_begin e)) = false
        /\ alerts (fst (externalRewrite_begin e)) = "Please enter a URL"%string :: alerts e)
  /\ (String.eqb (trim (externalUrl e)) ""%string = false ->
        snd (externalRewrite_begin e) = Some (trim (externalUrl e))
        /\ rewritingExternal (externalRewrite_complete r (fst (externalRewrite_begin e))) = false
        /\ (rewrite_failed r = true ->
              externalRewritten (externalRewrite_complete r (fst (externalRewrite_begin e)))
              = Some ""%string
              /\ List.length (alerts (externalRewrite_complete r (fst (externalRewrite_begin e))))
                 = S (List.length (alerts e)))).
Proof.
  unfold externalRewrite_begin.
  destruct (String.eqb (trim (externalUrl e)) ""%string) eqn:H.
  - split; [reflexivity|]. split; [intros _; repeat split; reflexivity|].
    discriminate.
  - split; [reflexivity|]. split; [discriminate|]. intros _.
    split; [reflexivity|].
    destruct r as [msg | b]; cbn.
    + split; [reflexivity|]. intros _. split; reflexivity.
    + destruct (rw_success b), (rw_retry b); cbn; split; try reflexivity;
        intros Hf; try discriminate Hf; split; reflexivity.
Qed.

Lemma externalRewrite_outcomes_witness :
  let e := mkExt "  　﻿" None false false (Some "old post"%string) [] in
  snd (externalRewrite_begin e) = None.
Proof.
  intros e.
  exact (proj1 (proj1 (proj2 (externalRewrite_outcomes e (RwThrows ""))) eq_refl)).
Defined.
